(** * Weatherly (react-weather): the search box of [src/App.js]

    A shallow embedding of the [App] component: the weather search
    ([fetchWeather]), the debounced geocoding lookup ([lookup]), the keyboard
    and mouse handlers of the suggestion dropdown, and the browser facilities
    they rely on (timers, [fetch], strings), followed by the properties of
    the suggestion state machine and of the weather request.

    Conventions.
    - A JavaScript string is the list of its UTF-16 code units, so that
      [length], [trim] and [encodeURIComponent] count and classify as the
      engine does.
    - React state is a record; a handler is a computation in a small monad
      that threads the state and writes down, in program order, every
      setter call, timer operation and network call it performs.
    - The functions declared inside [App] close over the state values of
      the render that created them; they take that render as the argument
      [r].  Setters and the ref [debounceRef] act on the live state.
    - A handler runs to completion before the next event is taken (the
      engine is single threaded), so a step of the machine is one whole
      handler, timer callback or continuation of an [await]. *)

From Stdlib Require Import String Ascii.
From Stdlib Require Import List ZArith NArith Arith Bool Lia.
Import ListNotations.

(* ===================================================================== *)
(** * JavaScript strings *)
(* ===================================================================== *)

Module JS.

(** UTF-16 code units. *)
Definition str := list N.

(** A source literal (all the literals of [App.js] are ASCII). *)
Definition lit (s : string) : str :=
  map N_of_ascii (list_ascii_of_string s).

(** [a === b] on strings. *)
Fixpoint eqb (a b : str) : bool :=
  match a, b with
  | [], [] => true
  | x :: a', y :: b' => N.eqb x y && eqb a' b'
  | _, _ => false
  end.

(** The empty string, [''] in the source. *)
Definition empty : str := [].

(** A string is truthy unless it is empty. *)
Definition truthy (s : str) : bool :=
  match s with [] => false | _ :: _ => true end.

(** [a || b] on strings. *)
Definition or_else (a b : str) : str := if truthy a then a else b.

(** WhiteSpace and LineTerminator code points of ECMAScript, the ones
    [String.prototype.trim] strips.  All of them are in the BMP. *)
Definition is_space (c : N) : bool :=
  ((9 <=? c) && (c <=? 13) || (c =? 32) || (c =? 160) || (c =? 5760)
   || (8192 <=? c) && (c <=? 8202) || (c =? 8232) || (c =? 8233)
   || (c =? 8239) || (c =? 8287) || (c =? 12288) || (c =? 65279))%N.

Fixpoint trimStart (s : str) : str :=
  match s with
  | c :: r => if is_space c then trimStart r else s
  | [] => []
  end.

Definition trimEnd (s : str) : str := rev (trimStart (rev s)).

Definition trim (s : str) : str := trimEnd (trimStart s).

(** Decimal rendering of a number inside a template literal. *)
Definition digit (d : N) : N := (48 + d)%N.

Fixpoint decimal_fuel (fuel : nat) (n : N) (acc : str) : str :=
  match fuel with
  | O => acc
  | S f =>
      let acc' := digit (n mod 10) :: acc in
      if (n <? 10)%N then acc' else decimal_fuel f (n / 10) acc'
  end.

Definition of_number (n : N) : str :=
  decimal_fuel (S (N.to_nat (N.log2 n))) n [].

(** ** [encodeURIComponent] *)

(** Code points of a well-formed UTF-16 string; [None] on a lone
    surrogate, where [encodeURIComponent] throws a [URIError]. *)
Fixpoint code_points (s : str) : option (list N) :=
  match s with
  | [] => Some []
  | c :: r =>
      if ((56320 <=? c) && (c <=? 57343))%N then None
      else if ((55296 <=? c) && (c <=? 56319))%N then
        match r with
        | d :: r' =>
            if ((56320 <=? d) && (d <=? 57343))%N then
              match code_points r' with
              | Some l =>
                  Some (((c - 55296) * 1024 + (d - 56320) + 65536)%N :: l)
              | None => None
              end
            else None
        | [] => None
        end
      else
        match code_points r with
        | Some l => Some (c :: l)
        | None => None
        end
  end.

(** uriUnescaped: letters, digits and [- _ . ! ~ * ' ( )]. *)
Definition unreserved (c : N) : bool :=
  ((65 <=? c) && (c <=? 90) || (97 <=? c) && (c <=? 122)
   || (48 <=? c) && (c <=? 57)
   || (c =? 45) || (c =? 95) || (c =? 46) || (c =? 33) || (c =? 126)
   || (c =? 42) || (c =? 39) || (c =? 40) || (c =? 41))%N.

Definition utf8 (cp : N) : list N :=
  (if cp <? 128 then [cp]
   else if cp <? 2048 then [192 + cp / 64; 128 + cp mod 64]
   else if cp <? 65536 then
     [224 + cp / 4096; 128 + (cp / 64) mod 64; 128 + cp mod 64]
   else
     [240 + cp / 262144; 128 + (cp / 4096) mod 64;
      128 + (cp / 64) mod 64; 128 + cp mod 64])%N.

Definition hex (d : N) : N := (if d <? 10 then 48 + d else 55 + d)%N.

(** [%XX], upper case. *)
Definition percent (b : N) : str := [37%N; hex (b / 16); hex (b mod 16)].

Definition escape (cp : N) : str :=
  if unreserved cp then [cp] else flat_map percent (utf8 cp).

Definition encodeURIComponent (s : str) : option str :=
  match code_points s with
  | Some cps => Some (flat_map escape cps)
  | None => None
  end.

(** ** Reading a query parameter back from a URL

    What the server sees: the text after the first [?] is cut at every [&],
    each piece at its first [=]; the first piece with the asked name gives
    the value (as [URLSearchParams.get] does, escapes left as they are). *)

Fixpoint break (c : N) (s : str) : str * option str :=
  match s with
  | [] => ([], None)
  | x :: r =>
      if (x =? c)%N then ([], Some r)
      else let p := break c r in (x :: fst p, snd p)
  end.

Fixpoint pieces (s : str) (cur : str) : list str :=
  match s with
  | [] => [rev cur]
  | x :: r =>
      if (x =? 38)%N then rev cur :: pieces r [] else pieces r (x :: cur)
  end.

Fixpoint lookup_piece (name : str) (ps : list str) : option str :=
  match ps with
  | [] => None
  | p :: r =>
      let kv := break 61 p in
      if eqb (fst kv) name
      then Some (match snd kv with Some v => v | None => [] end)
      else lookup_piece name r
  end.

Definition search_param (name : str) (url : str) : option str :=
  match snd (break 63 url) with
  | Some qs => lookup_piece name (pieces qs [])
  | None => None
  end.

End JS.

Notation "` s" := (JS.lit s%string) (at level 1, format "` s").

(* ===================================================================== *)
(** * The component *)
(* ===================================================================== *)

Module App.

(** ** Data *)

Definition API_WEATHER : JS.str :=
  `"https://api.openweathermap.org/data/2.5/weather".

Definition API_GEOCODE : JS.str :=
  `"https://api.openweathermap.org/geo/1.0/direct".

(** [process.env.REACT_APP_OPENWEATHER_KEY]: a string, or [undefined] when
    the variable is not set.  It is a parameter [key] of everything below. *)
Definition ApiKey := option JS.str.

(** [!API_KEY] *)
Definition key_missing (key : ApiKey) : bool :=
  match key with
  | Some s => negb (JS.truthy s)
  | None => true
  end.

(** [${API_KEY}] inside a template literal. *)
Definition key_text (key : ApiKey) : JS.str :=
  match key with
  | Some s => s
  | None => `"undefined"
  end.

(** An entry of the suggestion list, [{ label, value }]. *)
Record Suggestion := { label : JS.str; value : JS.str }.

(** An entry of the geocoding answer, [{ name, state?, country? }]. *)
Record RawEntry :=
  { name : JS.str; state : option JS.str; country : option JS.str }.

(** The parsed weather payload; the handlers only store it. *)
Inductive Json := JsonText (text : JS.str).

(** A pending [setTimeout]: its handle, the time it is due and the [q] its
    callback closes over ([lookup] is the only caller of [setTimeout]). *)
Record Timer := { tid : nat; due : nat; tq : JS.str }.

(** The two places that [await fetch(url)]. *)
Inductive Site := Geocode | Weather.

Record Request := { rid : nat; site : Site; url : JS.str }.

(** The [useState] cells and the ref of [App], and the part of the browser
    the handlers act on: the clock (ms), the live timers and the requests
    that have not been answered. *)
Record World := {
  city : JS.str;
  data : option Json;
  error : JS.str;
  loading : bool;
  suggestions : list Suggestion;
  open : bool;
  highlight : Z;
  debounceRef : option nat;
  clock : nat;
  timers : list Timer;
  next_timer : nat;
  inflight : list Request;
  next_request : nat
}.

(** The state at mount.  Timer handles are positive in a browser. *)
Definition init : World :=
  {| city := `"Algiers"; data := None; error := JS.empty; loading := false;
     suggestions := []; open := false; highlight := (-1)%Z;
     debounceRef := None; clock := 0; timers := []; next_timer := 1;
     inflight := []; next_request := 1 |}.

Definition with_city (x : JS.str) (w : World) : World :=
  {| city := x; data := data w; error := error w; loading := loading w;
     suggestions := suggestions w; open := open w; highlight := highlight w;
     debounceRef := debounceRef w; clock := clock w; timers := timers w;
     next_timer := next_timer w; inflight := inflight w;
     next_request := next_request w |}.

Definition with_data (x : option Json) (w : World) : World :=
  {| city := city w; data := x; error := error w; loading := loading w;
     suggestions := suggestions w; open := open w; highlight := highlight w;
     debounceRef := debounceRef w; clock := clock w; timers := timers w;
     next_timer := next_timer w; inflight := inflight w;
     next_request := next_request w |}.

Definition with_error (x : JS.str) (w : World) : World :=
  {| city := city w; data := data w; error := x; loading := loading w;
     suggestions := suggestions w; open := open w; highlight := highlight w;
     debounceRef := debounceRef w; clock := clock w; timers := timers w;
     next_timer := next_timer w; inflight := inflight w;
     next_request := next_request w |}.

Definition with_loading (x : bool) (w : World) : World :=
  {| city := city w; data := data w; error := error w; loading := x;
     suggestions := suggestions w; open := open w; highlight := highlight w;
     debounceRef := debounceRef w; clock := clock w; timers := timers w;
     next_timer := next_timer w; inflight := inflight w;
     next_request := next_request w |}.

Definition with_suggestions (x : list Suggestion) (w : World) : World :=
  {| city := city w; data := data w; error := error w; loading := loading w;
     suggestions := x; open := open w; highlight := highlight w;
     debounceRef := debounceRef w; clock := clock w; timers := timers w;
     next_timer := next_timer w; inflight := inflight w;
     next_request := next_request w |}.

Definition with_open (x : bool) (w : World) : World :=
  {| city := city w; data := data w; error := error w; loading := loading w;
     suggestions := suggestions w; open := x; highlight := highlight w;
     debounceRef := debounceRef w; clock := clock w; timers := timers w;
     next_timer := next_timer w; inflight := inflight w;
     next_request := next_request w |}.

Definition with_highlight (x : Z) (w : World) : World :=
  {| city := city w; data := data w; error := error w; loading := loading w;
     suggestions := suggestions w; open := open w; highlight := x;
     debounceRef := debounceRef w; clock := clock w; timers := timers w;
     next_timer := next_timer w; inflight := inflight w;
     next_request := next_request w |}.

Definition with_debounceRef (x : option nat) (w : World) : World :=
  {| city := city w; data := data w; error := error w; loading := loading w;
     suggestions := suggestions w; open := open w; highlight := highlight w;
     debounceRef := x; clock := clock w; timers := timers w;
     next_timer := next_timer w; inflight := inflight w;
     next_request := next_request w |}.

Definition with_clock (x : nat) (w : World) : World :=
  {| city := city w; data := data w; error := error w; loading := loading w;
     suggestions := suggestions w; open := open w; highlight := highlight w;
     debounceRef := debounceRef w; clock := x; timers := timers w;
     next_timer := next_timer w; inflight := inflight w;
     next_request := next_request w |}.

Definition with_timers (x : list Timer) (w : World) : World :=
  {| city := city w; data := data w; error := error w; loading := loading w;
     suggestions := suggestions w; open := open w; highlight := highlight w;
     debounceRef := debounceRef w; clock := clock w; timers := x;
     next_timer := next_timer w; inflight := inflight w;
     next_request := next_request w |}.

Definition with_next_timer (x : nat) (w : World) : World :=
  {| city := city w; data := data w; error := error w; loading := loading w;
     suggestions := suggestions w; open := open w; highlight := highlight w;
     debounceRef := debounceRef w; clock := clock w; timers := timers w;
     next_timer := x; inflight := inflight w;
     next_request := next_request w |}.

Definition with_inflight (x : list Request) (w : World) : World :=
  {| city := city w; data := data w; error := error w; loading := loading w;
     suggestions := suggestions w; open := open w; highlight := highlight w;
     debounceRef := debounceRef w; clock := clock w; timers := timers w;
     next_timer := next_timer w; inflight := x;
     next_request := next_request w |}.

Definition with_next_request (x : nat) (w : World) : World :=
  {| city := city w; data := data w; error := error w; loading := loading w;
     suggestions := suggestions w; open := open w; highlight := highlight w;
     debounceRef := debounceRef w; clock := clock w; timers := timers w;
     next_timer := next_timer w; inflight := inflight w; next_request := x |}.

(** ** Effects *)

(** What a handler does, as seen from outside, in program order. *)
Inductive Action :=
| SetCity (v : JS.str)
| SetData (d : option Json)
| SetError (m : JS.str)
| SetLoading (b : bool)
| SetSuggestions (l : list Suggestion)
| SetOpen (b : bool)
| SetHighlight (h : Z)
| PreventDefault
| ClearTimeout (id : nat)
| SetTimeout (id : nat) (q : JS.str) (ms : nat)
| Fetch (s : Site) (u : JS.str).

(** A computation returns a value, the new state and the actions taken. *)
Definition M (A : Type) : Type := World -> A * World * list Action.

Definition ret {A : Type} (a : A) : M A := fun w => (a, w, []).

Definition bind {A B : Type} (m : M A) (k : A -> M B) : M B :=
  fun w =>
    let r1 := m w in
    let r2 := k (fst (fst r1)) (snd (fst r1)) in
    (fst (fst r2), snd (fst r2), snd r1 ++ snd r2).

Notation "x <- m ;; k" := (bind m (fun x => k))
  (at level 61, m at next level, right associativity).
Notation "m ;; k" := (bind m (fun _ => k))
  (at level 61, right associativity).

(** State after, and actions of, a computation started in [w]. *)
Definition after {A : Type} (m : M A) (w : World) : World :=
  snd (fst (m w)).

Definition actions {A : Type} (m : M A) (w : World) : list Action :=
  snd (m w).

Definition get {A : Type} (f : World -> A) : M A := fun w => (f w, w, []).

Definition setCity (v : JS.str) : M unit :=
  fun w => (tt, with_city v w, [SetCity v]).
Definition setData (d : option Json) : M unit :=
  fun w => (tt, with_data d w, [SetData d]).
Definition setError (m : JS.str) : M unit :=
  fun w => (tt, with_error m w, [SetError m]).
Definition setLoading (b : bool) : M unit :=
  fun w => (tt, with_loading b w, [SetLoading b]).
Definition setSuggestions (l : list Suggestion) : M unit :=
  fun w => (tt, with_suggestions l w, [SetSuggestions l]).
Definition setOpen (b : bool) : M unit :=
  fun w => (tt, with_open b w, [SetOpen b]).
Definition setHighlight (h : Z) : M unit :=
  fun w => (tt, with_highlight h w, [SetHighlight h]).

(** [setHighlight((h) => f h)]: the updater gets the live value. *)
Definition setHighlightWith (f : Z -> Z) : M unit :=
  fun w => setHighlight (f (highlight w)) w.

Definition preventDefault : M unit := fun w => (tt, w, [PreventDefault]).

(** [debounceRef.current = id] *)
Definition setDebounceRef (id : nat) : M unit :=
  fun w => (tt, with_debounceRef (Some id) w, []).

(** [clearTimeout(id)]: the timer, if still pending, will not fire. *)
Definition clearTimeout (id : nat) : M unit :=
  fun w =>
    (tt, with_timers (filter (fun t => negb (tid t =? id)) (timers w)) w,
     [ClearTimeout id]).

(** [setTimeout(callback, ms)], the callback being the one of [lookup q]. *)
Definition setTimeout (q : JS.str) (ms : nat) : M nat :=
  fun w =>
    let id := next_timer w in
    (id,
     with_next_timer (S id)
       (with_timers
          (timers w ++ [{| tid := id; due := clock w + ms; tq := q |}]) w),
     [SetTimeout id q ms]).

(** [fetch(url)]: the request leaves; the code after [await] runs when the
    answer comes (see [Event]). *)
Definition fetch (s : Site) (u : JS.str) : M unit :=
  fun w =>
    let id := next_request w in
    (tt,
     with_next_request (S id)
       (with_inflight
          (inflight w ++ [{| rid := id; site := s; url := u |}]) w),
     [Fetch s u]).

(** ** [fetchWeather] *)

(** [e.message] of the [URIError] of [encodeURIComponent] (V8's text). *)
Definition URIError_message : JS.str := `"URI malformed".

Definition weather_url (key : ApiKey) (encoded : JS.str) : JS.str :=
  API_WEATHER ++ `"?q=" ++ encoded ++ `"&appid=" ++ key_text key
    ++ `"&units=metric".

(** [(q ?? city).trim() || 'Algiers'] *)
Definition resolve (r : World) (q : option JS.str) : JS.str :=
  JS.or_else (JS.trim (match q with Some s => s | None => city r end))
    `"Algiers".

(** Lines 21-29: up to the first [await].  [q = None] is the call without
    argument. *)
Definition fetchWeather (key : ApiKey) (r : World) (q : option JS.str)
  : M unit :=
  setError JS.empty ;;
  setData None ;;
  if key_missing key then setError `"Missing API key"
  else
    let query := resolve r q in
    setLoading true ;;
    match JS.encodeURIComponent query with
    | Some e => fetch Weather (weather_url key e)
    | None =>
        setError (JS.or_else URIError_message `"Request failed") ;;
        setLoading false
    end.

(** The answer of the weather service. *)
Inductive WeatherBody :=
| WBodyJson (j : option Json)      (* [res.json()] gives [j], [None] if null *)
| WBodyThrows (message : JS.str).  (* [res.json()] rejects *)

Inductive WeatherReply :=
| WRejected (message : JS.str)     (* [fetch] rejects *)
| WResponse (ok : bool) (status : N) (statusText : JS.str)
    (body : WeatherBody).

(** Lines 29-37: from the answer on. *)
Definition fetchWeather_resume (a : WeatherReply) : M unit :=
  match a with
  | WRejected m => setError (JS.or_else m `"Request failed")
  | WResponse ok status statusText body =>
      if ok then
        match body with
        | WBodyJson j => setData j
        | WBodyThrows m => setError (JS.or_else m `"Request failed")
        end
      else
        setError
          (JS.or_else (`"Error " ++ JS.of_number status ++ `": " ++ statusText)
             `"Request failed")
  end ;;
  setLoading false.

(** ** [lookup] *)

Definition geocode_url (key : ApiKey) (encoded : JS.str) : JS.str :=
  API_GEOCODE ++ `"?q=" ++ encoded ++ `"&limit=6&appid=" ++ key_text key.

(** [it.state ? ... : ''] takes the field when it holds a non-empty
    string. *)
Definition present (f : option JS.str) : bool :=
  match f with
  | Some s => JS.truthy s
  | None => false
  end.

Definition field_text (f : option JS.str) : JS.str :=
  match f with
  | Some s => s
  | None => `"undefined"
  end.

(** Lines 56-59. *)
Definition suggestion_of (it : RawEntry) : Suggestion :=
  {| label :=
       name it
       ++ (if present (state it) then `", " ++ field_text (state it)
           else JS.empty)
       ++ (if present (country it) then `", " ++ field_text (country it)
           else JS.empty);
     value :=
       name it
       ++ (if present (country it) then `"," ++ field_text (country it)
           else JS.empty) |}.

(** Lines 45-47 and 65-67. *)
Definition clearSuggestions : M unit :=
  setSuggestions [] ;; setOpen false ;; setHighlight (-1).

(** Lines 41-50 and 69-70: the part of [lookup] that runs at once. *)
Definition lookup (key : ApiKey) (q : JS.str) : M unit :=
  if key_missing key then ret tt
  else
    ref <- get debounceRef ;;
    match ref with
    | Some id => if negb (id =? 0) then clearTimeout id else ret tt
    | None => ret tt
    end ;;
    if negb (JS.truthy q) || (length (JS.trim q) <? 2) then clearSuggestions
    else
      id <- setTimeout q 250 ;;
      setDebounceRef id.

(** Lines 51-53: the timer callback up to its [await]. *)
Definition lookup_fire (key : ApiKey) (q : JS.str) : M unit :=
  match JS.encodeURIComponent q with
  | Some e => fetch Geocode (geocode_url key e)
  | None => clearSuggestions
  end.

(** The answer of the geocoding service. *)
Inductive GeoBody :=
| GBodyArray (l : list RawEntry)
| GBodyNull                        (* a falsy value: [(json || [])] *)
| GBodyThrows.                     (* [res.json()] rejects, or [.map] throws *)

Inductive GeoReply :=
| GRejected                        (* [fetch] rejects *)
| GResponse (ok : bool) (body : GeoBody).

(** The [items] of line 56, or [None] when the [try] block throws. *)
Definition geo_items (a : GeoReply) : option (list Suggestion) :=
  match a with
  | GRejected => None
  | GResponse ok body =>
      if ok then
        match body with
        | GBodyArray l => Some (map suggestion_of l)
        | GBodyNull => Some []
        | GBodyThrows => None
        end
      else None
  end.

(** Lines 54-68: the timer callback from the answer on. *)
Definition lookup_resume (a : GeoReply) : M unit :=
  match geo_items a with
  | Some items =>
      setSuggestions items ;;
      setOpen (0 <? length items) ;;
      setHighlight (-1)
  | None => clearSuggestions
  end.

(** ** Handlers *)

Definition onChange (key : ApiKey) (v : JS.str) : M unit :=
  setCity v ;;
  lookup key v.

Definition pick (key : ApiKey) (r : World) (s : Suggestion) : M unit :=
  setCity (value s) ;;
  setOpen false ;;
  setHighlight (-1) ;;
  fetchWeather key r (Some (value s)).

(** The updater of lines 89-95. *)
Definition move_highlight (r : World) (k : JS.str) (h : Z) : Z :=
  let max := (Z.of_nat (length (suggestions r)) - 1)%Z in
  if (max <? 0)%Z then (-1)%Z
  else if JS.eqb k `"ArrowDown" then (if (h >=? max)%Z then 0 else h + 1)%Z
  else if JS.eqb k `"ArrowUp" then (if (h <=? 0)%Z then max else h - 1)%Z
  else h.

(** [open && highlight >= 0 && suggestions[highlight]] and the entry. *)
Definition highlighted (r : World) : option Suggestion :=
  if open r && (highlight r >=? 0)%Z
  then nth_error (suggestions r) (Z.to_nat (highlight r))
  else None.

Definition onKeyDown (key : ApiKey) (r : World) (k : JS.str) : M unit :=
  if open r && (JS.eqb k `"ArrowDown" || JS.eqb k `"ArrowUp") then
    preventDefault ;;
    setHighlightWith (move_highlight r k)
  else
    (if JS.eqb k `"Enter" then
       match highlighted r with
       | Some s => pick key r s
       | None => fetchWeather key r None
       end
     else ret tt) ;;
    (if JS.eqb k `"Escape" then setOpen false ;; setHighlight (-1)
     else ret tt).

(** [onDocClick]; [inside] is [wrapRef.current.contains(ev.target)] (the
    ref holds the wrapper for as long as the component is mounted). *)
Definition onDocClick (inside : bool) : M unit :=
  if negb inside then setOpen false else ret tt.

(** ** Events *)

Inductive Event :=
| Change (v : JS.str)                       (* typing: [onChange] *)
| KeyDown (k : JS.str)                      (* [onKeyDown] with [e.key = k] *)
| OptionMouseEnter (i : nat)                (* on the i-th option *)
| OptionMouseLeave (i : nat)
| OptionMouseDown (i : nat)
| DocMouseDown (inside : bool)
| SearchClick                               (* the Search button *)
| Elapse (ms : nat)                         (* time passes *)
| TimerFires (id : nat)                     (* a due timer runs its callback *)
| GeoReplies (id : nat) (a : GeoReply)      (* a request is answered *)
| WeatherReplies (id : nat) (a : WeatherReply).

(** The i-th option, when the dropdown is on screen (line 149). *)
Definition rendered (w : World) (i : nat) : option Suggestion :=
  if open w && (0 <? length (suggestions w))
  then nth_error (suggestions w) i
  else None.

Definition find_timer (id : nat) (w : World) : option Timer :=
  find (fun t => tid t =? id) (timers w).

Definition site_eqb (a b : Site) : bool :=
  match a, b with
  | Geocode, Geocode | Weather, Weather => true
  | _, _ => false
  end.

Definition awaiting (s : Site) (id : nat) (w : World) : bool :=
  existsb (fun q => (rid q =? id) && site_eqb (site q) s) (inflight w).

(** The timer has fired: it is no longer pending. *)
Definition expire (id : nat) : M unit :=
  fun w =>
    (tt, with_timers (filter (fun t => negb (tid t =? id)) (timers w)) w, []).

(** The request has been answered. *)
Definition settle (id : nat) : M unit :=
  fun w =>
    (tt, with_inflight (filter (fun q => negb (rid q =? id)) (inflight w)) w,
     []).

Definition elapse (ms : nat) : M unit :=
  fun w => (tt, with_clock (clock w + ms) w, []).

(** The code an event runs in state [w]; [None] when the event cannot
    happen there (an option that is not on screen, a disabled button, a
    timer that is not due, an answer to a request that is not pending). *)
Definition handler (key : ApiKey) (w : World) (e : Event)
  : option (M unit) :=
  match e with
  | Change v => Some (onChange key v)
  | KeyDown k => Some (onKeyDown key w k)
  | OptionMouseEnter i =>
      match rendered w i with
      | Some _ => Some (setHighlight (Z.of_nat i))
      | None => None
      end
  | OptionMouseLeave i =>
      match rendered w i with
      | Some _ => Some (setHighlight (-1))
      | None => None
      end
  | OptionMouseDown i =>
      match rendered w i with
      | Some s => Some (preventDefault ;; pick key w s)
      | None => None
      end
  | DocMouseDown inside => Some (onDocClick inside)
  | SearchClick =>
      if loading w then None else Some (fetchWeather key w None)
  | Elapse ms => Some (elapse ms)
  | TimerFires id =>
      match find_timer id w with
      | Some t =>
          if due t <=? clock w
          then Some (expire id ;; lookup_fire key (tq t))
          else None
      | None => None
      end
  | GeoReplies id a =>
      if awaiting Geocode id w then Some (settle id ;; lookup_resume a)
      else None
  | WeatherReplies id a =>
      if awaiting Weather id w then Some (settle id ;; fetchWeather_resume a)
      else None
  end.

Definition step (key : ApiKey) (w : World) (e : Event)
  : option (World * list Action) :=
  match handler key w e with
  | Some m => Some (after m w, actions m w)
  | None => None
  end.

Fixpoint run (key : ApiKey) (w : World) (es : list Event)
  : option (World * list Action) :=
  match es with
  | [] => Some (w, [])
  | e :: es' =>
      match step key w e with
      | Some (w1, a1) =>
          match run key w1 es' with
          | Some (w2, a2) => Some (w2, a1 ++ a2)
          | None => None
          end
      | None => None
      end
  end.

(** The states the component can be in. *)
Definition reachable (key : ApiKey) (w : World) : Prop :=
  exists es, option_map fst (run key init es) = Some w.

(** The URLs requested from one of the two services. *)
Fixpoint calls (s : Site) (acts : list Action) : list JS.str :=
  match acts with
  | [] => []
  | Fetch s' u :: r => if site_eqb s' s then u :: calls s r else calls s r
  | _ :: r => calls s r
  end.

End App.

Import App.

(* ===================================================================== *)
(** * Properties: what is stated *)
(* ===================================================================== *)

(** ** The suggestion state *)

(** [highlight] is -1 or an index of [suggestions]. *)
Definition highlight_ok (w : World) : Prop :=
  highlight w = (-1)%Z
  \/ (0 <= highlight w < Z.of_nat (length (suggestions w)))%Z.

(** The dropdown is open only over a non-empty list. *)
Definition open_ok (w : World) : Prop :=
  open w = true -> suggestions w <> [].

Definition suggestion_inv (w : World) : Prop :=
  highlight_ok w /\ open_ok w.

(** ** The debounce timer *)

(** At most one timer is pending; it is the one [debounceRef] holds and the
    last one [setTimeout] has handed out. *)
Definition timer_inv (w : World) : Prop :=
  0 < next_timer w
  /\ (timers w = []
      \/ exists t, timers w = [t] /\ debounceRef w = Some (tid t)
                   /\ 0 < tid t /\ S (tid t) = next_timer w).

(** Without a key nothing is ever scheduled, requested or suggested. *)
Definition idle_inv (key : ApiKey) (w : World) : Prop :=
  key_missing key = true ->
  timers w = [] /\ inflight w = [] /\ suggestions w = []
  /\ open w = false /\ highlight w = (-1)%Z /\ loading w = false.

(** Every keystroke of [es] comes less than 250 ms after the one before
    it; [since] is the time since the last keystroke. *)
Fixpoint quiet (since : nat) (es : list Event) : bool :=
  match es with
  | [] => true
  | Change _ :: r => (since <? 250) && quiet 0 r
  | Elapse ms :: r => quiet (since + ms) r
  | _ :: r => quiet since r
  end.

(** The text of the last keystroke of [es], [q] when it has none. *)
Fixpoint last_text (q : JS.str) (es : list Event) : JS.str :=
  match es with
  | [] => q
  | Change v :: r => last_text v r
  | _ :: r => last_text q r
  end.

(** The geocoding calls [cs] of a burst whose last text is [q]: none, or
    one, for [q]. *)
Definition one_call (key : ApiKey) (cs : list JS.str) (q : JS.str) : Prop :=
  cs = []
  \/ exists e, JS.encodeURIComponent q = Some e /\ cs = [geocode_url key e].

(** In the middle of a burst: the pending timer is the one of the last
    keystroke, typed [since] ms ago with text [q]; a call has been made
    only if that timer has fired. *)
Definition burst_inv (key : ApiKey) (since : nat) (q : JS.str) (w : World)
    (cs : list JS.str) : Prop :=
  timer_inv w /\ idle_inv key w
  /\ (forall t, In t (timers w) -> tq t = q /\ due t + since = clock w + 250)
  /\ (cs = [] \/ timers w = [] /\ 250 <= since /\ one_call key cs q).

(** ** Labels, as the specification words them *)

(** The fields that are there, in order. *)
Fixpoint given (fs : list (option JS.str)) : list JS.str :=
  match fs with
  | [] => []
  | f :: r => if present f then field_text f :: given r else given r
  end.

(** [parts.join(sep)] *)
Fixpoint join (sep : JS.str) (parts : list JS.str) : JS.str :=
  match parts with
  | [] => []
  | [p] => p
  | p :: r => p ++ sep ++ join sep r
  end.

(** label = name[, state][, country] *)
Definition spec_label (it : RawEntry) : JS.str :=
  join `", " (name it :: given [state it; country it]).

(** value = name[,country] *)
Definition spec_value (it : RawEntry) : JS.str :=
  join `"," (name it :: given [country it]).

(** ** Views of the state *)

(** The request status of the specification, read off the three cells the
    page renders: the button shows [loading], the banner [error], the card
    [data]. *)
Inductive RequestStatus :=
| Idle
| Loading
| Ready (result : Json)
| Failed (message : JS.str).

Definition status (w : World) : RequestStatus :=
  if loading w then Loading
  else if JS.truthy (error w) then Failed (error w)
  else match data w with
       | Some j => Ready j
       | None => Idle
       end.

(** What the dropdown shows. *)
Definition ui (w : World) : list Suggestion * bool * Z :=
  (suggestions w, open w, highlight w).

(** What the scheduler holds. *)
Definition sched (w : World) : list Timer * option nat * nat * nat :=
  (timers w, debounceRef w, clock w, next_timer w).

(** The pending timers once [lookup] has run its line 43. *)
Definition after_cancel (w : World) : list Timer :=
  match debounceRef w with
  | Some id =>
      if negb (id =? 0) then filter (fun t => negb (tid t =? id)) (timers w)
      else timers w
  | None => timers w
  end.

(** ** Sample states and answers *)

Definition paris_fr : RawEntry :=
  {| name := `"Paris"; state := None; country := Some `"FR" |}.

Definition paris_tx : RawEntry :=
  {| name := `"Paris"; state := Some `"Texas"; country := Some `"US" |}.

(** A weather card on screen. *)
Definition shown : World := with_data (Some (JsonText `"{}")) init.

(** A session: typing, the timer, the answer, an arrow key. *)
Definition session : list Event :=
  [Change `"Par"; Elapse 250; TimerFires 1;
   GeoReplies 1 (GResponse true (GBodyArray [paris_fr; paris_tx]));
   KeyDown `"ArrowUp"].

(** Where [session] ends: the dropdown open over two suggestions, the
    second one highlighted. *)
Definition browsing : World :=
  {| city := `"Par"; data := None; error := JS.empty; loading := false;
     suggestions := [suggestion_of paris_fr; suggestion_of paris_tx];
     open := true; highlight := 1%Z;
     debounceRef := Some 1; clock := 250; timers := []; next_timer := 2;
     inflight := []; next_request := 2 |}.

(** A lookup in flight, the list of an earlier one on screen and an error
    banner up. *)
Definition waiting : World :=
  with_inflight [{| rid := 7; site := Geocode; url := API_GEOCODE |}]
    (with_error `"Error 404: Not Found" browsing).

(** The box after "Pa" has been typed: a timer is pending. *)
Definition typed : World :=
  with_debounceRef (Some 1)
    (with_next_timer 2
       (with_timers [{| tid := 1; due := 250; tq := `"Pa" |}]
          (with_city `"Pa" init))).

(** Two more keystrokes in quick succession, then silence. *)
Definition typing_burst : list Event :=
  [Elapse 100; Change `"Par"; Elapse 249; Change `"Pari"; Elapse 250;
   TimerFires 3].

(** ** Characters that do not cut a query string *)

(** Neither [&] nor [?]. *)
Definition plain (c : N) : bool := negb (c =? 38)%N && negb (c =? 63)%N.

(** ** Runs, seen from outside *)

(** The texts typed during [es], in order. *)
Fixpoint typed_texts (es : list Event) : list JS.str :=
  match es with
  | [] => []
  | Change v :: r => v :: typed_texts r
  | _ :: r => typed_texts r
  end.

(** The time that passes during [es]. *)
Fixpoint elapsed (es : list Event) : nat :=
  match es with
  | [] => 0
  | Elapse ms :: r => ms + elapsed r
  | _ :: r => elapsed r
  end.

(** A place worth asking the weather for: not empty, nothing to trim. *)
Definition clean_place (p : JS.str) : Prop :=
  p <> [] /\ JS.trim p = p.

(** A weather URL for a clean place. *)
Definition clean_weather_url (key : ApiKey) (u : JS.str) : Prop :=
  exists p e,
    clean_place p /\ JS.encodeURIComponent p = Some e /\ u = weather_url key e.

(** The cells of the weather search, and the requests under way. *)
Definition weather_cells (w : World) : option Json * JS.str * bool :=
  (data w, error w, loading w).

Definition net (w : World) : list Request * nat :=
  (inflight w, next_request w).

(** Requests under way carry distinct handles, all handed out already. *)
Definition requests_inv (w : World) : Prop :=
  NoDup (map rid (inflight w))
  /\ forall q, In q (inflight w) -> rid q < next_request w.

(** The button says "Loading" only while a weather request is under way. *)
Definition loading_inv (w : World) : Prop :=
  loading w = true -> exists q, In q (inflight w) /\ site q = Weather.


(** How a handler may change the requests under way and [loading]: it
    leaves the requests alone, [loading] too unless it ends it; or it sends
    one request with a fresh handle, and [loading] changes only if that is
    a weather request. *)
Definition sends (w w' : World) : Prop :=
  net w' = net w /\ (loading w' = loading w \/ loading w' = false)
  \/ exists s u,
       inflight w'
       = inflight w ++ [{| rid := next_request w; site := s; url := u |}]
       /\ next_request w' = S (next_request w)
       /\ (loading w' = loading w \/ s = Weather).

(** The events that run [fetchWeather] or its continuation: Enter, a press
    on an option, the Search button, an answer of the weather service. *)
Definition searches (e : Event) : bool :=
  match e with
  | KeyDown k => JS.eqb k `"Enter"
  | OptionMouseDown _ | SearchClick | WeatherReplies _ _ => true
  | _ => false
  end.

(** The state after a click on Search. *)
Definition searching : World :=
  {| city := `"Algiers"; data := None; error := JS.empty; loading := true;
     suggestions := []; open := false; highlight := (-1)%Z;
     debounceRef := None; clock := 0; timers := []; next_timer := 1;
     inflight :=
       [{| rid := 1; site := Weather;
           url := weather_url (Some `"k") `"Algiers" |}];
     next_request := 2 |}.

(** Two weather searches under way: Algiers, then Paris. *)
Definition two_searches : World :=
  with_next_request 3
    (with_inflight
       [{| rid := 1; site := Weather;
           url := weather_url (Some `"k") `"Algiers" |};
        {| rid := 2; site := Weather;
           url := weather_url (Some `"k") `"Paris" |}]
       (with_city `"Paris" searching)).

(* ===================================================================== *)
(** * Proofs *)
(* ===================================================================== *)

(** ** The string functions on examples *)

Example trim_spaces : JS.trim `"  New York " = `"New York".
Proof. reflexivity. Qed.

(** A no-break space is white space; one letter is left. *)
Example trim_nbsp : length (JS.trim [160; 80; 32]%N) = 1.
Proof. reflexivity. Qed.

Example of_number_404 : JS.of_number 404 = `"404".
Proof. reflexivity. Qed.

Example of_number_0 : JS.of_number 0 = `"0".
Proof. reflexivity. Qed.

Example encode_city :
  JS.encodeURIComponent `"New York,US" = Some `"New%20York%2CUS".
Proof. reflexivity. Qed.

(** U+00E9, then the pair D83D DE00 (U+1F600). *)
Example encode_non_ascii :
  JS.encodeURIComponent [233; 55357; 56832]%N = Some `"%C3%A9%F0%9F%98%80".
Proof. reflexivity. Qed.

Example encode_lone_surrogate : JS.encodeURIComponent [55357]%N = None.
Proof. reflexivity. Qed.

Example read_limit :
  JS.search_param `"limit" `"https://h/p?q=a%26b&limit=6&appid=k" = Some `"6".
Proof. reflexivity. Qed.

(** ** Running handlers symbolically *)

Ltac unfold_m :=
  cbv beta delta
    [after actions bind ret get setCity setData setError setLoading
     setSuggestions setOpen setHighlight setHighlightWith preventDefault
     setDebounceRef clearTimeout setTimeout fetch expire settle elapse
     clearSuggestions ui sched] in *.

Ltac simpl_m :=
  cbn [fst snd app calls site_eqb
       city data error loading suggestions open highlight debounceRef clock
       timers next_timer inflight next_request
       with_city with_data with_error with_loading with_suggestions with_open
       with_highlight with_debounceRef with_clock with_timers with_next_timer
       with_inflight with_next_request] in *.

Ltac run_m := unfold_m; simpl_m.

(** Which code an event runs, guard by guard. *)
Ltac handler_cases H :=
  match type of H with
  | handler _ ?w ?e = Some _ =>
      destruct e; cbn [handler] in H;
      repeat match type of H with
        | match ?c with _ => _ end = Some _ =>
            let G := fresh "G" in destruct c eqn:G; [|discriminate]
        | (if loading ?w then None else _) = Some _ =>
            let G := fresh "G" in destruct (loading w) eqn:G; [discriminate|]
        | (if ?c then _ else None) = Some _ =>
            let G := fresh "G" in destruct c eqn:G; [|discriminate]
        end;
      injection H as <-
  end.

Lemma after_bind A B (m : M A) (k : A -> M B) w :
  after (bind m k) w = after (k (fst (fst (m w)))) (after m w).
Proof. reflexivity. Qed.

Lemma actions_bind A B (m : M A) (k : A -> M B) w :
  actions (bind m k) w = actions m w ++ actions (k (fst (fst (m w)))) (after m w).
Proof. reflexivity. Qed.

Lemma calls_app s a b : calls s (a ++ b) = calls s a ++ calls s b.
Proof.
  induction a as [|x a IH]; [reflexivity|].
  destruct x as [v|d|m|c|l|c|h| |id|id q ms|s' u]; cbn [app calls]; auto.
  destruct (site_eqb s' s); cbn [app]; congruence.
Qed.

(** ** What each handler changes *)

Section Handlers.

Variable key : ApiKey.

Lemma fetchWeather_frame r q w :
  ui (after (fetchWeather key r q) w) = ui w
  /\ sched (after (fetchWeather key r q) w) = sched w
  /\ calls Geocode (actions (fetchWeather key r q) w) = [].
Proof.
  unfold fetchWeather.
  destruct (key_missing key); [run_m; auto|].
  destruct (JS.encodeURIComponent (resolve r q)); run_m; auto.
Qed.

Lemma pick_frame r s w :
  ui (after (pick key r s) w) = (suggestions w, false, (-1)%Z)
  /\ sched (after (pick key r s) w) = sched w
  /\ calls Geocode (actions (pick key r s) w) = [].
Proof.
  unfold pick.
  rewrite !after_bind, !actions_bind, !calls_app.
  set (w1 := after (setHighlight (-1)) _).
  destruct (fetchWeather_frame r (Some (value s)) w1) as (U & S & C).
  cbv zeta. rewrite U, S, C. subst w1. run_m. auto.
Qed.

Lemma fetchWeather_resume_frame a w :
  ui (after (fetchWeather_resume a) w) = ui w
  /\ sched (after (fetchWeather_resume a) w) = sched w
  /\ inflight (after (fetchWeather_resume a) w) = inflight w
  /\ calls Geocode (actions (fetchWeather_resume a) w) = [].
Proof.
  unfold fetchWeather_resume.
  destruct a as [m|[] status text [j|m]]; run_m; auto.
Qed.

(** What [onKeyDown] does to the dropdown. *)
Lemma onKeyDown_frame r k w :
  suggestions (after (onKeyDown key r k) w) = suggestions w
  /\ (open (after (onKeyDown key r k) w) = open w
      /\ (highlight (after (onKeyDown key r k) w) = highlight w
          \/ open r = true
             /\ highlight (after (onKeyDown key r k) w)
                = move_highlight r k (highlight w))
      \/ open (after (onKeyDown key r k) w) = false
         /\ highlight (after (onKeyDown key r k) w) = (-1)%Z)
  /\ sched (after (onKeyDown key r k) w) = sched w
  /\ calls Geocode (actions (onKeyDown key r k) w) = [].
Proof.
  unfold onKeyDown.
  destruct (open r && _) eqn:A.
  - apply andb_true_iff in A as [A _]. run_m. auto 10.
  - clear A. rewrite after_bind, actions_bind, calls_app.
    set (m1 := if JS.eqb k `"Enter" then _ else _).
    assert (H1 : (ui (after m1 w) = ui w \/ ui (after m1 w) = (suggestions w, false, (-1)%Z))
                 /\ sched (after m1 w) = sched w
                 /\ calls Geocode (actions m1 w) = []).
    { subst m1. destruct (JS.eqb k `"Enter").
      - destruct (highlighted r).
        + destruct (pick_frame r s w) as (U & S & C). auto.
        + destruct (fetchWeather_frame r None w) as (U & S & C). auto.
      - run_m. auto. }
    destruct H1 as (U & S & C). rewrite C.
    generalize dependent (after m1 w). intros w1 U S.
    generalize (fst (fst (m1 w))). intros u.
    destruct (JS.eqb k `"Escape"); run_m.
    + destruct U as [U|U]; injection U as U1 U2 U3; injection S as -> -> -> ->;
        auto 10.
    + destruct U as [U|U]; injection U as U1 U2 U3; injection S as -> -> -> ->;
        rewrite ?U1, ?U2, ?U3; auto 10.
Qed.

Lemma timer_inv_sched w w' : sched w' = sched w -> timer_inv w -> timer_inv w'.
Proof.
  unfold sched, timer_inv. intros E. injection E as -> -> _ ->. auto.
Qed.

Lemma suggestion_inv_ui w w' : ui w' = ui w -> suggestion_inv w -> suggestion_inv w'.
Proof.
  unfold ui, suggestion_inv, highlight_ok, open_ok.
  intros E. injection E as -> -> ->. auto.
Qed.

Lemma suggestion_inv_closed l :
  forall w, ui w = (l, false, (-1)%Z) -> suggestion_inv w.
Proof.
  unfold ui, suggestion_inv, highlight_ok, open_ok.
  intros w E. injection E as _ -> ->. split; [auto|discriminate].
Qed.

(** The three ways [lookup] can go. *)
Lemma lookup_cases q w :
  let w' := after (lookup key q) w in
  calls Geocode (actions (lookup key q) w) = []
  /\ inflight w' = inflight w /\ clock w' = clock w
  /\ (key_missing key = true /\ w' = w
      \/ key_missing key = false
         /\ negb (JS.truthy q) || (length (JS.trim q) <? 2) = true
         /\ ui w' = ([], false, (-1)%Z)
         /\ timers w' = after_cancel w
         /\ debounceRef w' = debounceRef w
         /\ next_timer w' = next_timer w
      \/ key_missing key = false
         /\ negb (JS.truthy q) || (length (JS.trim q) <? 2) = false
         /\ ui w' = ui w
         /\ timers w'
            = after_cancel w
              ++ [{| tid := next_timer w; due := clock w + 250; tq := q |}]
         /\ debounceRef w' = Some (next_timer w)
         /\ next_timer w' = S (next_timer w)).
Proof.
  unfold lookup.
  destruct (key_missing key); [run_m; auto 10|].
  rewrite !after_bind, !actions_bind, !calls_app.
  set (m1 := match fst (fst (get debounceRef w)) with Some _ => _ | None => _ end).
  set (w1 := after m1 (after (get debounceRef) w)).
  assert (H1 : timers w1 = after_cancel w /\ ui w1 = ui w
               /\ inflight w1 = inflight w /\ clock w1 = clock w
               /\ next_timer w1 = next_timer w
               /\ debounceRef w1 = debounceRef w
               /\ calls Geocode (actions m1 (after (get debounceRef) w)) = []).
  { subst w1 m1. unfold after_cancel. run_m.
    destruct (debounceRef w) as [id|] eqn:R; [destruct (negb (id =? 0))|];
      simpl_m; auto 10. }
  destruct H1 as (T1 & U1 & I1 & C1 & N1 & R1 & A1).
  rewrite A1. clearbody w1.
  generalize (fst (fst (m1 (after (get debounceRef) w)))). intros u.
  clear A1 m1.
  destruct (negb (JS.truthy q) || _); run_m.
  - rewrite T1, N1. auto 12.
  - rewrite T1, N1, C1. injection U1 as -> -> ->. auto 15.
Qed.

Lemma after_cancel_inv w : timer_inv w -> after_cancel w = [].
Proof.
  intros (N & [T|(t & T & R & P)]); unfold after_cancel.
  - rewrite T. destruct (debounceRef w) as [id|]; [destruct (negb (id =? 0))|];
      reflexivity.
  - rewrite R, T. destruct (Nat.eqb_spec (tid t) 0) as [E|E]; [lia|].
    cbn [negb filter]. rewrite Nat.eqb_refl. reflexivity.
Qed.

Lemma lookup_ui q w :
  ui (after (lookup key q) w) = ui w
  \/ ui (after (lookup key q) w) = ([], false, (-1)%Z).
Proof.
  destruct (lookup_cases q w) as (_ & _ & _ & [(_ & ->)|[H|H]]);
    [auto | right | left]; apply H.
Qed.

Lemma lookup_fire_frame q w :
  sched (after (lookup_fire key q) w) = sched w
  /\ (ui (after (lookup_fire key q) w) = ui w
      \/ ui (after (lookup_fire key q) w) = ([], false, (-1)%Z))
  /\ calls Geocode (actions (lookup_fire key q) w)
     = match JS.encodeURIComponent q with
       | Some e => [geocode_url key e]
       | None => []
       end.
Proof.
  unfold lookup_fire. destruct (JS.encodeURIComponent q); run_m; auto.
Qed.

Lemma lookup_resume_frame a w :
  sched (after (lookup_resume a) w) = sched w
  /\ inflight (after (lookup_resume a) w) = inflight w
  /\ calls Geocode (actions (lookup_resume a) w) = []
  /\ ui (after (lookup_resume a) w)
     = match geo_items a with
       | Some items => (items, 0 <? length items, (-1)%Z)
       | None => ([], false, (-1)%Z)
       end.
Proof.
  unfold lookup_resume. destruct (geo_items a); run_m; auto.
Qed.

Lemma step_handler w e w' acts :
  step key w e = Some (w', acts) ->
  exists m, handler key w e = Some m /\ w' = after m w /\ acts = actions m w.
Proof.
  unfold step. destruct (handler key w e) as [m|]; [|discriminate].
  intros H. injection H as <- <-. eauto.
Qed.

Lemma rendered_some w i s :
  rendered w i = Some s ->
  open w = true /\ nth_error (suggestions w) i = Some s
  /\ i < length (suggestions w).
Proof.
  unfold rendered. destruct (open w); [|discriminate].
  destruct (0 <? _); [|discriminate]. cbn [andb]. intros H.
  repeat split; auto. apply nth_error_Some. congruence.
Qed.

Lemma move_highlight_range r k h :
  h = (-1)%Z \/ (0 <= h < Z.of_nat (length (suggestions r)))%Z ->
  move_highlight r k h = (-1)%Z
  \/ (0 <= move_highlight r k h < Z.of_nat (length (suggestions r)))%Z.
Proof.
  intros H. unfold move_highlight.
  destruct (Z.ltb_spec (Z.of_nat (length (suggestions r)) - 1) 0); [auto|].
  destruct (JS.eqb k `"ArrowDown").
  - destruct (Z.geb_spec h (Z.of_nat (length (suggestions r)) - 1)); lia.
  - destruct (JS.eqb k `"ArrowUp"); [|exact H].
    destruct (Z.leb_spec h 0); lia.
Qed.

Lemma suggestion_inv_step w e w' acts :
  suggestion_inv w -> step key w e = Some (w', acts) -> suggestion_inv w'.
Proof.
  intros I H. apply step_handler in H as (m & H & -> & ->).
  handler_cases H.
  - (* Change *)
    unfold onChange. rewrite after_bind.
    destruct (lookup_ui v (after (setCity v) w)) as [U|U].
    + eapply suggestion_inv_ui; [|exact I]. rewrite U. reflexivity.
    + eapply suggestion_inv_closed; eauto.
  - (* KeyDown *)
    destruct (onKeyDown_frame w k w)
      as (S & [(O & [Hh|(_ & Hh)])|(O & Hh)] & _).
    + eapply suggestion_inv_ui; [|exact I]. unfold ui. congruence.
    + destruct I as (I1 & I2). split.
      * unfold highlight_ok. rewrite Hh, S. apply move_highlight_range, I1.
      * unfold open_ok. rewrite O, S. exact I2.
    + eapply suggestion_inv_closed. unfold ui. rewrite S, O, Hh. reflexivity.
  - (* OptionMouseEnter *)
    apply rendered_some in G as (O & _ & L). destruct I as (_ & I2).
    split; [right; run_m; lia | exact I2].
  - (* OptionMouseLeave *)
    destruct I as (_ & I2). split; [left; reflexivity | exact I2].
  - (* OptionMouseDown *)
    rewrite after_bind. eapply suggestion_inv_closed.
    apply (pick_frame w s).
  - (* DocMouseDown *)
    destruct I as (I1 & I2). unfold onDocClick.
    destruct inside; cbn [negb]; split; auto. discriminate.
  - (* SearchClick *)
    eapply suggestion_inv_ui; [|exact I]. apply fetchWeather_frame.
  - (* Elapse *)
    exact I.
  - (* TimerFires *)
    rewrite after_bind.
    set (w1 := after (expire id) w).
    destruct (lookup_fire_frame (tq t) w1) as (_ & [U|U] & _).
    + eapply suggestion_inv_ui; [|exact I]. rewrite U. reflexivity.
    + eapply suggestion_inv_closed; eauto.
  - (* GeoReplies *)
    rewrite after_bind.
    set (w1 := after (settle id) w).
    destruct (lookup_resume_frame a w1) as (_ & _ & _ & U).
    destruct (geo_items a) as [items|]; [|eapply suggestion_inv_closed; eauto].
    unfold ui in U. injection U as U1 U2 U3.
    split; [left; exact U3|].
    unfold open_ok. rewrite U1, U2. destruct items; [discriminate|discriminate].
  - (* WeatherReplies *)
    rewrite after_bind.
    eapply suggestion_inv_ui; [|exact I].
    set (w1 := after (settle id) w).
    destruct (fetchWeather_resume_frame a w1) as (U & _). rewrite U. reflexivity.
Qed.

Lemma timer_inv_step w e w' acts :
  timer_inv w -> step key w e = Some (w', acts) -> timer_inv w'.
Proof.
  intros I H. apply step_handler in H as (m & H & -> & ->).
  handler_cases H.
  - (* Change *)
    unfold onChange. rewrite after_bind.
    set (w1 := after (setCity v) w).
    assert (I1 : timer_inv w1) by exact I.
    destruct (lookup_cases v w1)
      as (_ & _ & _ & [(_ & ->)|[(_ & _ & _ & T & R & N)|(_ & _ & _ & T & R & N)]]).
    + exact I1.
    + rewrite (after_cancel_inv w1 I1) in T. split; [rewrite N; apply I1|auto].
    + rewrite (after_cancel_inv w1 I1) in T. split; [rewrite N; lia|].
      right. eexists. split; [exact T|]. cbn [tid]. rewrite R, N.
      destruct I1 as (P0 & _). repeat split. exact P0.
  - eapply timer_inv_sched; [|exact I]. apply onKeyDown_frame.
  - exact I.
  - exact I.
  - rewrite after_bind. eapply timer_inv_sched; [|exact I]. apply pick_frame.
  - unfold onDocClick. destruct inside; exact I.
  - eapply timer_inv_sched; [|exact I]. apply fetchWeather_frame.
  - exact I.
  - (* TimerFires *)
    rewrite after_bind.
    eapply timer_inv_sched; [apply lookup_fire_frame|].
    destruct I as (N & [T|(t0 & T & R & P)]); split; auto.
    + left. run_m. rewrite T. reflexivity.
    + run_m. rewrite T. cbn [filter].
      destruct (negb (tid t0 =? id)); [right; exists t0; auto|left; reflexivity].
  - rewrite after_bind. eapply timer_inv_sched; [apply lookup_resume_frame|exact I].
  - rewrite after_bind. eapply timer_inv_sched; [apply fetchWeather_resume_frame|exact I].
Qed.

(** ** The states that can be reached *)

Lemma idle_inv_step w e w' acts :
  idle_inv key w -> step key w e = Some (w', acts) -> idle_inv key w'.
Proof.
  intros I H K. destruct (I K) as (T & F & S & O & Hh & L). clear I.
  apply step_handler in H as (m & H & -> & ->).
  handler_cases H.
  - unfold onChange, lookup. rewrite K. run_m. auto 10.
  - unfold onKeyDown, highlighted, fetchWeather. rewrite O, K. cbn [andb].
    destruct (JS.eqb k `"Enter"), (JS.eqb k `"Escape"); run_m; auto 10.
  - apply rendered_some in G as (O' & _). congruence.
  - apply rendered_some in G as (O' & _). congruence.
  - apply rendered_some in G as (O' & _). congruence.
  - unfold onDocClick. destruct inside; run_m; auto 10.
  - unfold fetchWeather. rewrite K. run_m. auto 10.
  - run_m. auto 10.
  - unfold find_timer in G. rewrite T in G. discriminate.
  - unfold awaiting in G. rewrite F in G. discriminate.
  - unfold awaiting in G. rewrite F in G. discriminate.
Qed.

Lemma run_app es1 : forall w es2 w1 a1 w2 a2,
  run key w es1 = Some (w1, a1) -> run key w1 es2 = Some (w2, a2) ->
  run key w (es1 ++ es2) = Some (w2, a1 ++ a2).
Proof.
  induction es1 as [|e es1 IH]; intros w es2 w1 a1 w2 a2 H1 H2.
  - injection H1 as <- <-. exact H2.
  - cbn [run app] in *. destruct (step key w e) as [[w' a']|]; [|discriminate].
    destruct (run key w' es1) as [[w'' a'']|] eqn:R; [|discriminate].
    injection H1 as <- <-. rewrite (IH _ _ _ _ _ _ R H2), app_assoc. reflexivity.
Qed.

Lemma run_invariant (P : World -> Prop) :
  (forall w e w' acts, P w -> step key w e = Some (w', acts) -> P w') ->
  forall es w w' acts, P w -> run key w es = Some (w', acts) -> P w'.
Proof.
  intros HP. induction es as [|e es IH]; intros w w' acts Hw H; cbn [run] in H.
  - injection H as <- _. exact Hw.
  - destruct (step key w e) as [[w1 a1]|] eqn:S; [|discriminate].
    destruct (run key w1 es) as [[w2 a2]|] eqn:R; [|discriminate].
    injection H as <- _. eapply IH; [|exact R]. eapply HP; eauto.
Qed.

Lemma init_inv : suggestion_inv init /\ timer_inv init /\ idle_inv key init.
Proof.
  split; [split; [left; reflexivity | discriminate]|].
  split; [split; [cbn; lia | left; reflexivity]|].
  intros _. cbn. auto 10.
Qed.

Lemma reachable_inv w :
  reachable key w -> suggestion_inv w /\ timer_inv w /\ idle_inv key w.
Proof.
  intros (es & H).
  destruct (run key init es) as [[w0 acts]|] eqn:R; [|discriminate H].
  injection H as ->. destruct (init_inv) as (A & B & C).
  split; [|split].
  - eapply run_invariant with (P := suggestion_inv); eauto using suggestion_inv_step.
  - eapply run_invariant with (P := timer_inv); eauto using timer_inv_step.
  - eapply run_invariant with (P := idle_inv key); eauto using idle_inv_step.
Qed.

Lemma reachable_step w e w' acts :
  reachable key w -> step key w e = Some (w', acts) -> reachable key w'.
Proof.
  intros (es & H) S. exists (es ++ [e]).
  destruct (run key init es) as [[w0 a]|] eqn:R; [|discriminate H].
  injection H as ->.
  rewrite (run_app es init [e] w a w' (acts ++ []) R); [reflexivity|].
  cbn [run]. rewrite S. reflexivity.
Qed.

End Handlers.

(** ** The suggestion state stays well formed *)

(** C1.  The initial state has [highlight = -1] and a closed dropdown;
    every event handler (typing, the timer callback and both outcomes of
    its request, the arrow keys, Enter, Escape, hovering and pressing an
    option, a press outside the box, the Search button, the weather answer)
    takes a state where [highlight] is -1 or an index of [suggestions] and
    where [open] implies a non-empty list to another such state; hence
    every reachable state is such a state. *)
Theorem suggestion_state_invariant (key : ApiKey) :
  suggestion_inv init
  /\ (forall w e w' acts,
        suggestion_inv w -> step key w e = Some (w', acts) -> suggestion_inv w')
  /\ (forall w, reachable key w -> suggestion_inv w).
Proof.
  split; [apply init_inv; exact key|].
  split; [apply suggestion_inv_step|].
  intros w R. apply (reachable_inv key w R).
Qed.

Lemma suggestion_state_invariant_witness :
  reachable (Some `"k") browsing
  /\ suggestion_inv browsing
  /\ suggestion_inv (after (onKeyDown (Some `"k") browsing `"Escape") browsing).
Proof.
  assert (R : reachable (Some `"k") browsing) by (exists session; reflexivity).
  destruct (suggestion_state_invariant (Some `"k")) as (_ & P & I).
  split; [exact R|]. split; [exact (I browsing R)|].
  exact (P browsing (KeyDown `"Escape") _ _ (I browsing R) eq_refl).
Defined.

(** ** The weather search without a key *)

Lemma fetchWeather_actions key r q w :
  actions (fetchWeather key r q) w
  = SetError JS.empty :: SetData None
    :: (if key_missing key then [SetError `"Missing API key"]
        else SetLoading true
             :: match JS.encodeURIComponent (resolve r q) with
                | Some e => [Fetch Weather (weather_url key e)]
                | None => [SetError `"URI malformed"; SetLoading false]
                end).
Proof.
  unfold fetchWeather.
  destruct (key_missing key); [reflexivity|].
  destruct (JS.encodeURIComponent (resolve r q)); reflexivity.
Qed.

Lemma fetchWeather_missing key r q w :
  key_missing key = true ->
  after (fetchWeather key r q) w
  = with_error `"Missing API key" (with_data None (with_error JS.empty w)).
Proof. intros K. unfold fetchWeather. rewrite K. reflexivity. Qed.

(** C2.  Without a key (the variable unset, or set to the empty string),
    a call of [fetchWeather], whatever its argument and the state, sets
    [error] to "Missing API key", leaves [data] empty and performs exactly
    three setter calls and no [fetch]: no request is pending that was not
    before.  In a reachable state the status is then
    [Failed "Missing API key"]. *)
Theorem missing_key_short_circuits (key : ApiKey) (r w : World) (q : option JS.str) :
  key_missing key = true ->
  let m := fetchWeather key r q in
  error (after m w) = `"Missing API key"
  /\ data (after m w) = None
  /\ actions m w = [SetError JS.empty; SetData None; SetError `"Missing API key"]
  /\ calls Weather (actions m w) = []
  /\ calls Geocode (actions m w) = []
  /\ inflight (after m w) = inflight w
  /\ (reachable key w -> status (after m w) = Failed `"Missing API key").
Proof.
  intros K m. subst m.
  rewrite fetchWeather_actions, (fetchWeather_missing key r q w K), K.
  repeat split.
  intros R. destruct (reachable_inv key w R) as (_ & _ & I).
  destruct (I K) as (_ & _ & _ & _ & _ & L).
  unfold status. cbn [loading error with_error with_data]. rewrite L. reflexivity.
Qed.

Lemma missing_key_short_circuits_witness :
  key_missing None = true
  /\ error (after (fetchWeather None init (Some `"Paris")) init) = `"Missing API key"
  /\ calls Weather (actions (fetchWeather None init (Some `"Paris")) init) = []
  /\ status (after (fetchWeather None init (Some `"Paris")) init)
     = Failed `"Missing API key".
Proof.
  assert (K : key_missing None = true) by reflexivity.
  assert (R : reachable None init) by (exists []; reflexivity).
  destruct (missing_key_short_circuits None init init (Some `"Paris") K)
    as (E & _ & _ & C & _ & _ & S).
  split; [exact K|]. split; [exact E|]. split; [exact C|]. exact (S R).
Defined.

(** C10.  Every call of [fetchWeather] starts with [setError('')] and
    [setData(null)], before the key is tested and before [setLoading(true)];
    what follows is one of three continuations.  Without a key the call is
    exactly these two clears and [setError('Missing API key')]: [data] is
    empty afterwards whatever it held, [loading] is not touched, and the
    status is not [Ready]. *)
Theorem fetchWeather_clears_first (key : ApiKey) (r w : World) (q : option JS.str) :
  let m := fetchWeather key r q in
  (exists rest,
     actions m w = SetError JS.empty :: SetData None :: rest
     /\ (rest = [SetError `"Missing API key"]
         \/ (exists e, rest = [SetLoading true; Fetch Weather (weather_url key e)])
         \/ rest = [SetLoading true; SetError `"URI malformed"; SetLoading false]))
  /\ (key_missing key = true ->
      actions m w = [SetError JS.empty; SetData None; SetError `"Missing API key"]
      /\ ~ In (SetLoading true) (actions m w)
      /\ data (after m w) = None
      /\ loading (after m w) = loading w
      /\ forall j, status (after m w) <> Ready j).
Proof.
  intros m. subst m. rewrite fetchWeather_actions. split.
  - eexists. split; [reflexivity|].
    destruct (key_missing key); [auto|].
    destruct (JS.encodeURIComponent (resolve r q)); eauto.
  - intros K. rewrite K, (fetchWeather_missing key r q w K).
    split; [reflexivity|]. split.
    + cbn [In]. intros [H|[H|[H|[]]]]; discriminate.
    + split; [reflexivity|]. split; [reflexivity|].
      intros j. unfold status. cbn [loading error data with_error with_data].
      destruct (loading w); discriminate.
Qed.

Lemma fetchWeather_clears_first_witness :
  key_missing None = true
  /\ status shown = Ready (JsonText `"{}")
  /\ data (after (fetchWeather None shown None) shown) = None
  /\ ~ In (SetLoading true) (actions (fetchWeather None shown None) shown).
Proof.
  assert (K : key_missing None = true) by reflexivity.
  destruct (fetchWeather_clears_first None shown shown None) as (_ & H).
  destruct (H K) as (_ & L & D & _).
  split; [exact K|]. split; [reflexivity|]. split; [exact D|exact L].
Defined.

(** ** The default place *)

(** C7, as stated, fails without a key: the argument trims to the empty
    string and no request leaves. *)
Lemma empty_query_without_key :
  JS.trim `"   " = JS.empty
  /\ calls Weather (actions (fetchWeather None init (Some `"   ")) init) = []
  /\ length (calls Weather (actions (fetchWeather None init (Some `"   ")) init)) <> 1.
Proof. repeat split. discriminate. Qed.

(** C7, amended.  With a key, a call of [fetchWeather] whose text (the
    argument, or [city] when there is none) trims to the empty string
    resolves to "Algiers" and performs exactly one [fetch], of the weather
    URL for "Algiers", after entering the loading state. *)
Theorem empty_query_uses_default (key : ApiKey) (r w : World) (q : option JS.str) :
  key_missing key = false ->
  JS.trim (match q with Some s => s | None => city r end) = JS.empty ->
  let m := fetchWeather key r q in
  resolve r q = `"Algiers"
  /\ actions m w
     = [SetError JS.empty; SetData None; SetLoading true;
        Fetch Weather (weather_url key `"Algiers")]
  /\ calls Weather (actions m w) = [weather_url key `"Algiers"]
  /\ loading (after m w) = true.
Proof.
  intros K T m. subst m.
  assert (R : resolve r q = `"Algiers") by (unfold resolve; rewrite T; reflexivity).
  rewrite fetchWeather_actions, K, R. unfold fetchWeather. rewrite K, R.
  repeat split.
Qed.

Lemma empty_query_uses_default_witness :
  calls Weather (actions (fetchWeather (Some `"k") init (Some `"   ")) init)
  = [`"https://api.openweathermap.org/data/2.5/weather?q=Algiers&appid=k&units=metric"].
Proof.
  exact (proj1 (proj2 (proj2
    (empty_query_uses_default (Some `"k") init init (Some `"   ")
       eq_refl eq_refl)))).
Defined.

(** ** Moving the highlight *)

(** The arrows, whenever [highlight] is in range. *)
Lemma arrows_in_range (key : ApiKey) (w : World) (k : Z) :
  open w = true ->
  Z.of_nat (length (suggestions w)) = k ->
  (0 < k)%Z ->
  (-1 <= highlight w <= k - 1)%Z ->
  let down := onKeyDown key w `"ArrowDown" in
  let up := onKeyDown key w `"ArrowUp" in
  highlight (after down w)
  = (if (highlight w =? -1)%Z || (highlight w =? k - 1)%Z then 0
     else highlight w + 1)%Z
  /\ highlight (after up w)
     = (if (highlight w =? -1)%Z || (highlight w =? 0)%Z then k - 1
        else highlight w - 1)%Z
  /\ suggestions (after down w) = suggestions w
  /\ suggestions (after up w) = suggestions w
  /\ open (after down w) = true /\ open (after up w) = true
  /\ actions down w = [PreventDefault; SetHighlight (highlight (after down w))]
  /\ actions up w = [PreventDefault; SetHighlight (highlight (after up w))].
Proof.
  intros O L K H down up. subst down up.
  unfold onKeyDown. rewrite O.
  change (JS.eqb `"ArrowDown" `"ArrowDown") with true.
  change (JS.eqb `"ArrowUp" `"ArrowDown") with false.
  change (JS.eqb `"ArrowUp" `"ArrowUp") with true.
  cbn [andb orb]. run_m. unfold move_highlight. rewrite L, O.
  change (JS.eqb `"ArrowDown" `"ArrowDown") with true.
  change (JS.eqb `"ArrowUp" `"ArrowDown") with false.
  change (JS.eqb `"ArrowUp" `"ArrowUp") with true.
  cbv iota.
  destruct (Z.ltb_spec (k - 1) 0); [lia|].
  repeat split.
  - destruct (Z.geb_spec (highlight w) (k - 1)),
      (Z.eqb_spec (highlight w) (-1)), (Z.eqb_spec (highlight w) (k - 1));
      cbn [orb]; lia.
  - destruct (Z.leb_spec (highlight w) 0),
      (Z.eqb_spec (highlight w) (-1)), (Z.eqb_spec (highlight w) 0);
      cbn [orb]; lia.
Qed.

(** C5.  In a reachable state with the dropdown open over [k > 0]
    suggestions, ArrowDown gives 0 from -1 and from [k-1] and the next
    index otherwise; ArrowUp gives [k-1] from -1 and from 0 and the previous
    index otherwise.  Neither changes the list nor closes the dropdown, and
    both suppress the default action. *)
Theorem arrows_cycle (key : ApiKey) (w : World) (k : Z) :
  reachable key w ->
  open w = true ->
  Z.of_nat (length (suggestions w)) = k ->
  (0 < k)%Z ->
  let down := onKeyDown key w `"ArrowDown" in
  let up := onKeyDown key w `"ArrowUp" in
  highlight (after down w)
  = (if (highlight w =? -1)%Z || (highlight w =? k - 1)%Z then 0
     else highlight w + 1)%Z
  /\ highlight (after up w)
     = (if (highlight w =? -1)%Z || (highlight w =? 0)%Z then k - 1
        else highlight w - 1)%Z
  /\ suggestions (after down w) = suggestions w
  /\ suggestions (after up w) = suggestions w
  /\ open (after down w) = true /\ open (after up w) = true
  /\ actions down w = [PreventDefault; SetHighlight (highlight (after down w))]
  /\ actions up w = [PreventDefault; SetHighlight (highlight (after up w))].
Proof.
  intros R O L K. apply arrows_in_range; auto.
  destruct (reachable_inv key w R) as ((H & _) & _).
  unfold highlight_ok in H. lia.
Qed.

Lemma arrows_cycle_witness :
  reachable (Some `"k") browsing
  /\ highlight browsing = 1%Z
  /\ highlight (after (onKeyDown (Some `"k") browsing `"ArrowDown") browsing) = 0%Z
  /\ highlight (after (onKeyDown (Some `"k") browsing `"ArrowUp") browsing) = 0%Z.
Proof.
  assert (R : reachable (Some `"k") browsing) by (exists session; reflexivity).
  assert (O : open browsing = true) by reflexivity.
  assert (L : Z.of_nat (length (suggestions browsing)) = 2%Z) by reflexivity.
  assert (K : (0 < 2)%Z) by lia.
  destruct (arrows_cycle (Some `"k") browsing 2 R O L K) as (D & U & _).
  split; [exact R|]. split; [reflexivity|]. split; [exact D | exact U].
Defined.

(** ** A failed lookup is silent *)

(** C6.  A rejected [fetch] and an answer that is not [ok] both make the
    [try] block throw.  Whenever it throws, the answer handler empties the
    list, closes the dropdown and resets the highlight, by exactly three
    setter calls; [error], [data] and [loading], hence the request status,
    stay as they were. *)
Theorem lookup_failure_is_silent (key : ApiKey) :
  geo_items GRejected = None
  /\ (forall body, geo_items (GResponse false body) = None)
  /\ (forall w id a w' acts,
        geo_items a = None ->
        step key w (GeoReplies id a) = Some (w', acts) ->
        suggestions w' = [] /\ open w' = false /\ highlight w' = (-1)%Z
        /\ acts = [SetSuggestions []; SetOpen false; SetHighlight (-1)]
        /\ (forall m, ~ In (SetError m) acts)
        /\ error w' = error w /\ data w' = data w /\ loading w' = loading w
        /\ status w' = status w).
Proof.
  split; [reflexivity|]. split; [reflexivity|].
  intros w id a w' acts F H.
  apply step_handler in H as (m & H & -> & ->).
  cbn [handler] in H. destruct (awaiting Geocode id w); [|discriminate].
  injection H as <-. unfold lookup_resume. rewrite F. run_m.
  repeat split.
  intros m [H|[H|[H|[]]]]; discriminate.
Qed.

Lemma lookup_failure_is_silent_witness :
  match step (Some `"k") waiting (GeoReplies 7 GRejected) with
  | Some (w', acts) =>
      suggestions w' = [] /\ open w' = false
      /\ status w' = Failed `"Error 404: Not Found"
  | None => False
  end.
Proof.
  destruct (step (Some `"k") waiting (GeoReplies 7 GRejected))
    as [[w' acts]|] eqn:S; [|discriminate S].
  destruct (proj2 (proj2 (lookup_failure_is_silent (Some `"k")))
              waiting 7 GRejected w' acts eq_refl S)
    as (A & B & _ & _ & _ & _ & _ & _ & C).
  split; [exact A|]. split; [exact B|]. rewrite C. reflexivity.
Defined.

(** ** Enter *)

(** [fetchWeather()] reads the box: it is [fetchWeather(city)]. *)
Lemma fetchWeather_no_argument key r w :
  fetchWeather key r None w = fetchWeather key r (Some (city r)) w.
Proof. reflexivity. Qed.

Lemma bind_ret_tt (m : M unit) w :
  bind m (fun _ => ret tt) w = m w.
Proof.
  unfold bind, ret. cbn [fst snd]. rewrite app_nil_r.
  destruct (m w) as [[[] w1] a]. reflexivity.
Qed.

(** C9.  On Enter, with the dropdown open and [highlight] the index of a
    suggestion [s], the handler does what [pick s] does: [city] becomes
    [value s], the dropdown closes, the highlight is reset, and
    [fetchWeather] runs with [value s].  With the dropdown closed, or
    [highlight] not an index of the list, the handler does what
    [fetchWeather] does when called with the text in the box. *)
Theorem enter_confirms (key : ApiKey) (w : World) :
  (forall i s,
     open w = true ->
     highlight w = Z.of_nat i ->
     nth_error (suggestions w) i = Some s ->
     let w1 := with_highlight (-1) (with_open false (with_city (value s) w)) in
     onKeyDown key w `"Enter" w = pick key w s w
     /\ after (pick key w s) w = after (fetchWeather key w (Some (value s))) w1
     /\ actions (pick key w s) w
        = [SetCity (value s); SetOpen false; SetHighlight (-1)]
          ++ actions (fetchWeather key w (Some (value s))) w1
     /\ city (after (pick key w s) w) = value s
     /\ open (after (pick key w s) w) = false
     /\ highlight (after (pick key w s) w) = (-1)%Z)
  /\ (open w = false
      \/ ~ (0 <= highlight w < Z.of_nat (length (suggestions w)))%Z ->
      onKeyDown key w `"Enter" w = fetchWeather key w (Some (city w)) w
      /\ city (after (onKeyDown key w `"Enter") w) = city w).
Proof.
  split.
  - intros i s O H N w1.
    assert (E : onKeyDown key w `"Enter" w = pick key w s w).
    { unfold onKeyDown, highlighted. rewrite O, H.
      change (JS.eqb `"Enter" `"ArrowDown") with false.
      change (JS.eqb `"Enter" `"ArrowUp") with false.
      change (JS.eqb `"Enter" `"Enter") with true.
      change (JS.eqb `"Enter" `"Escape") with false.
      cbn [andb orb]. destruct (Z.geb_spec (Z.of_nat i) 0); [|lia].
      rewrite Nat2Z.id, N. apply bind_ret_tt. }
    split; [exact E|]. split; [reflexivity|]. split; [reflexivity|].
    destruct (pick_frame key w s w) as (U & _).
    unfold ui in U. injection U as _ U2 U3. repeat split; auto.
    unfold pick. rewrite !after_bind.
    unfold fetchWeather.
    destruct (key_missing key); [reflexivity|].
    destruct (JS.encodeURIComponent _); reflexivity.
  - intros C.
    assert (N : highlighted w = None).
    { unfold highlighted. destruct C as [->|C]; [reflexivity|].
      destruct (open w); [|reflexivity]. cbn [andb].
      destruct (Z.geb_spec (highlight w) 0); [|reflexivity].
      apply nth_error_None. lia. }
    assert (E : onKeyDown key w `"Enter" w = fetchWeather key w (Some (city w)) w).
    { unfold onKeyDown. rewrite N.
      change (JS.eqb `"Enter" `"ArrowDown") with false.
      change (JS.eqb `"Enter" `"ArrowUp") with false.
      change (JS.eqb `"Enter" `"Enter") with true.
      change (JS.eqb `"Enter" `"Escape") with false.
      rewrite andb_false_r, bind_ret_tt. apply fetchWeather_no_argument. }
    split; [exact E|]. unfold after. rewrite E.
    unfold fetchWeather.
    destruct (key_missing key); [reflexivity|].
    destruct (JS.encodeURIComponent _); reflexivity.
Qed.

Lemma enter_confirms_witness :
  city (after (pick (Some `"k") browsing (suggestion_of paris_tx)) browsing)
  = `"Paris,US"
  /\ onKeyDown (Some `"k") init `"Enter" init
     = fetchWeather (Some `"k") init (Some `"Algiers") init.
Proof.
  destruct (enter_confirms (Some `"k") browsing) as (A & _).
  destruct (A 1 (suggestion_of paris_tx) eq_refl eq_refl eq_refl)
    as (_ & _ & _ & C & _).
  destruct (enter_confirms (Some `"k") init) as (_ & B).
  destruct (B (or_introl eq_refl)) as (E & _).
  split; [exact C | exact E].
Defined.

(** ** Typing *)

Lemma lookup_keeps key q w :
  city (after (lookup key q) w) = city w
  /\ forall s, calls s (actions (lookup key q) w) = [].
Proof.
  unfold lookup. destruct (key_missing key); [run_m; auto|].
  run_m.
  destruct (debounceRef w) as [id|]; [destruct (negb (id =? 0))|];
    destruct (negb (JS.truthy q) || _); simpl_m; auto.
Qed.

Lemma calls_none acts :
  (forall s, calls s acts = []) -> forall s u, ~ In (Fetch s u) acts.
Proof.
  intros H s u I. specialize (H s).
  induction acts as [|a acts IH]; [destruct I|].
  destruct I as [->|I].
  - cbn [calls] in H.
    replace (site_eqb s s) with true in H by (destruct s; reflexivity).
    discriminate.
  - apply IH; [|exact I].
    destruct a as [v|d|m|b|l|b|h| |id|id q ms|s' u']; cbn [calls] in H;
      try exact H.
    destruct (site_eqb s' s); [discriminate|exact H].
Qed.

Lemma onChange_short key w s :
  timer_inv w -> idle_inv key w ->
  length (JS.trim s) < 2 ->
  ui (after (onChange key s) w) = ([], false, (-1)%Z)
  /\ timers (after (onChange key s) w) = [].
Proof.
  intros T I L. unfold onChange. rewrite after_bind.
  set (w1 := after (setCity s) w).
  assert (T1 : timer_inv w1) by exact T.
  assert (S : negb (JS.truthy s) || (length (JS.trim s) <? 2) = true).
  { apply orb_true_iff. right. apply Nat.ltb_lt. exact L. }
  destruct (lookup_cases key s w1)
    as (_ & _ & _ & [(K & ->)|[(_ & _ & U & Tm & _)|(_ & F & _)]]).
  - destruct (I K) as (A & _ & B & C & D & _). unfold ui.
    change (suggestions w1) with (suggestions w). change (open w1) with (open w).
    change (highlight w1) with (highlight w). change (timers w1) with (timers w).
    rewrite A, B, C, D. auto.
  - rewrite Tm, (after_cancel_inv w1 T1). auto.
  - congruence.
Qed.

(** C4.  In a reachable state, typing a text [s] whose trimmed length is
    below 2 performs no [fetch] and leaves no timer pending; the list is
    empty, the dropdown closed and the highlight -1 afterwards, and the box
    holds [s]. *)
Theorem short_input_clears (key : ApiKey) (w : World) (s : JS.str) :
  reachable key w ->
  length (JS.trim s) < 2 ->
  let m := onChange key s in
  step key w (Change s) = Some (after m w, actions m w)
  /\ (forall site u, ~ In (Fetch site u) (actions m w))
  /\ calls Geocode (actions m w) = []
  /\ timers (after m w) = []
  /\ suggestions (after m w) = []
  /\ open (after m w) = false
  /\ highlight (after m w) = (-1)%Z
  /\ city (after m w) = s.
Proof.
  intros R L m. subst m.
  destruct (reachable_inv key w R) as (_ & T & I).
  destruct (onChange_short key w s T I L) as (U & Tm).
  unfold ui in U. injection U as U1 U2 U3.
  assert (C : forall x, calls x (actions (onChange key s) w) = []).
  { intros x. unfold onChange. rewrite actions_bind, calls_app.
    rewrite (proj2 (lookup_keeps key s _)). reflexivity. }
  split; [reflexivity|]. split; [apply calls_none, C|].
  split; [apply C|]. repeat split; auto.
  unfold onChange. rewrite after_bind.
  rewrite (proj1 (lookup_keeps key s _)). reflexivity.
Qed.

Lemma short_input_clears_witness :
  reachable (Some `"k") typed
  /\ length (JS.trim `" P ") < 2
  /\ timers typed <> []
  /\ timers (after (onChange (Some `"k") `" P ") typed) = []
  /\ suggestions (after (onChange (Some `"k") `" P ") typed) = [].
Proof.
  assert (R : reachable (Some `"k") typed)
    by (exists [Change `"Pa"]; reflexivity).
  assert (L : length (JS.trim `" P ") < 2) by (cbn; lia).
  destruct (short_input_clears (Some `"k") typed `" P " R L)
    as (_ & _ & _ & T & S & _).
  split; [exact R|]. split; [exact L|]. split; [discriminate|].
  split; [exact T | exact S].
Defined.

(** ** The debounce *)

Section Debounce.

Variable key : ApiKey.

(** Events that neither type, nor let time pass, nor fire a timer leave
    the scheduler alone and call no geocoding. *)
Lemma step_elsewhere w e w' acts :
  step key w e = Some (w', acts) ->
  match e with
  | Change _ | Elapse _ | TimerFires _ => True
  | _ => sched w' = sched w /\ calls Geocode acts = []
  end.
Proof.
  intros H. apply step_handler in H as (m & H & -> & ->).
  handler_cases H; auto.
  - split; apply onKeyDown_frame.
  - rewrite after_bind, actions_bind, calls_app.
    split; [apply pick_frame|].
    rewrite (proj2 (proj2 (pick_frame key w s _))). reflexivity.
  - unfold onDocClick. destruct inside; auto.
  - split; apply fetchWeather_frame.
  - rewrite after_bind, actions_bind, calls_app.
    destruct (lookup_resume_frame a (after (settle id) w)) as (S & _ & C & _).
    rewrite S, C. auto.
  - rewrite after_bind, actions_bind, calls_app.
    destruct (fetchWeather_resume_frame a (after (settle id) w)) as (_ & S & _ & C).
    rewrite S, C. auto.
Qed.

Lemma change_arms w v w' acts :
  timer_inv w -> idle_inv key w ->
  step key w (Change v) = Some (w', acts) ->
  clock w' = clock w
  /\ calls Geocode acts = []
  /\ (timers w' = []
      \/ timers w' = [{| tid := next_timer w; due := clock w + 250; tq := v |}]).
Proof.
  intros T I H. apply step_handler in H as (m & H & -> & ->).
  cbn [handler] in H. injection H as <-.
  unfold onChange. rewrite after_bind, actions_bind, calls_app.
  set (w1 := after (setCity v) w).
  assert (T1 : timer_inv w1) by exact T.
  destruct (lookup_cases key v w1)
    as (C & _ & Ck & [(K & E)|[(_ & _ & _ & Tm & _)|(_ & _ & _ & Tm & _)]]).
  - rewrite C, E. destruct (I K) as (A & _). auto.
  - rewrite C, Ck, Tm, (after_cancel_inv w1 T1). auto.
  - rewrite C, Ck, Tm, (after_cancel_inv w1 T1). auto.
Qed.

Lemma timer_fires w id w' acts :
  timer_inv w ->
  step key w (TimerFires id) = Some (w', acts) ->
  exists t,
    timers w = [t] /\ tid t = id /\ due t <= clock w
    /\ debounceRef w = Some id /\ S id = next_timer w
    /\ timers w' = [] /\ clock w' = clock w
    /\ calls Geocode acts
       = match JS.encodeURIComponent (tq t) with
         | Some e => [geocode_url key e]
         | None => []
         end.
Proof.
  intros (N & T) H. apply step_handler in H as (m & H & -> & ->).
  cbn [handler] in H.
  destruct (find_timer id w) as [t|] eqn:F; [|discriminate].
  destruct (due t <=? clock w) eqn:D; [|discriminate].
  injection H as <-.
  unfold find_timer in F. apply find_some in F as (In_t & Id).
  apply Nat.eqb_eq in Id. apply Nat.leb_le in D.
  destruct T as [T|(t0 & T & R & P0 & P1)]; [rewrite T in In_t; destruct In_t|].
  rewrite T in In_t. destruct In_t as [<-|[]].
  exists t0. rewrite after_bind, actions_bind, calls_app.
  set (w1 := after (expire id) w).
  destruct (lookup_fire_frame key (tq t0) w1) as (S1 & _ & C).
  unfold sched in S1. injection S1 as S1 _ S3 _.
  rewrite C, S1, S3. subst w1. run_m. rewrite T. cbn [filter].
  rewrite Id, Nat.eqb_refl. cbn [negb]. rewrite <- Id. auto 10.
Qed.

Lemma burst_step since q w cs e w1 a1 :
  burst_inv key since q w cs ->
  step key w e = Some (w1, a1) ->
  match e with
  | Change v => since < 250 -> burst_inv key 0 v w1 (cs ++ calls Geocode a1)
  | Elapse ms => burst_inv key (since + ms) q w1 (cs ++ calls Geocode a1)
  | _ => burst_inv key since q w1 (cs ++ calls Geocode a1)
  end.
Proof.
  intros (T & I & A & C) H.
  assert (T1 := timer_inv_step key w e w1 a1 T H).
  assert (I1 := idle_inv_step key w e w1 a1 I H).
  destruct e;
    try (destruct (step_elsewhere _ _ _ _ H) as (S & ->);
         unfold sched in S; injection S as S1 _ S3 _;
         rewrite app_nil_r;
         split; [exact T1|split; [exact I1|split]];
         [intros t; rewrite S1, S3; apply A | rewrite S1; exact C]).
  - (* Change *)
    intros Q. destruct (change_arms w v w1 a1 T I H) as (Ck & -> & Tm).
    rewrite app_nil_r.
    assert (cs = []) as -> by (destruct C as [C|(_ & C & _)]; [exact C|lia]).
    split; [exact T1|split; [exact I1|split]]; [|left; reflexivity].
    intros t In_t.
    destruct Tm as [Tm|Tm]; rewrite Tm in In_t; [destruct In_t|].
    destruct In_t as [<-|[]]. cbn [tq due]. split; [reflexivity|lia].
  - (* Elapse *)
    apply step_handler in H as (m & H & -> & ->).
    cbn [handler] in H. injection H as <-. run_m.
    rewrite app_nil_r.
    split; [exact T1|split; [exact I1|split]].
    + intros t In_t. destruct (A t In_t) as (A1 & A2). simpl_m.
      split; [exact A1|lia].
    + destruct C as [C|(C1 & C2 & C3)]; [left; exact C|].
      right. split; [exact C1|]. split; [lia|exact C3].
  - (* TimerFires *)
    destruct (timer_fires w id w1 a1 T H)
      as (t & Tm & Id & D & _ & _ & Tm1 & Ck & Cs).
    assert (In_t : In t (timers w)) by (rewrite Tm; left; reflexivity).
    destruct (A t In_t) as (Q & Du).
    assert (cs = []) as ->.
    { destruct C as [C|(C & _)]; [exact C|]. rewrite C in Tm. discriminate. }
    split; [exact T1|split; [exact I1|split]].
    + intros t' In_t'. rewrite Tm1 in In_t'. destruct In_t'.
    + cbn [app]. right. split; [exact Tm1|]. split; [lia|].
      rewrite Cs, Q. unfold one_call.
      destruct (JS.encodeURIComponent q) as [e|]; eauto.
Qed.

Lemma burst_run es : forall since q w cs w' acts,
  burst_inv key since q w cs ->
  quiet since es = true ->
  run key w es = Some (w', acts) ->
  one_call key (cs ++ calls Geocode acts) (last_text q es).
Proof.
  induction es as [|e es IH]; intros since q w cs w' acts B Q H.
  - cbn [run] in H. injection H as <- <-. cbn [last_text calls].
    rewrite app_nil_r. destruct B as (_ & _ & _ & [->|(_ & _ & C)]);
      [left; reflexivity | exact C].
  - cbn [run] in H.
    destruct (step key w e) as [[w1 a1]|] eqn:S; [|discriminate].
    destruct (run key w1 es) as [[w2 a2]|] eqn:R; [|discriminate].
    injection H as <- <-.
    rewrite calls_app, app_assoc.
    pose proof (burst_step since q w cs e w1 a1 B S) as B1.
    destruct e; cbn [quiet last_text] in *;
      try (eapply IH; [exact B1 | exact Q | exact R]).
    apply andb_true_iff in Q as (Q1 & Q2). apply Nat.ltb_lt in Q1.
    eapply IH; [exact (B1 Q1) | exact Q2 | exact R].
Qed.

End Debounce.

(** C3.  In every reachable state at most one timer is pending.  Typing
    leaves pending either no timer or only the one it has just armed, due
    250 ms later with the text typed: a timer that was pending before is
    gone.  A timer that fires is the one [debounceRef] holds, the last one
    handed out, and nothing is pending after it.  Hence, over a run that
    starts with a keystroke and in which every further keystroke comes less
    than 250 ms after the one before it, whatever else happens meanwhile
    and afterwards, at most one geocoding call is made, and it is the one
    for the text of the last keystroke. *)
Theorem debounce_coalesces (key : ApiKey) :
  (forall w, reachable key w -> length (timers w) <= 1)
  /\ (forall w v w' acts,
        reachable key w -> step key w (Change v) = Some (w', acts) ->
        (timers w' = []
         \/ timers w' = [{| tid := next_timer w; due := clock w + 250; tq := v |}])
        /\ forall t, In t (timers w) -> ~ In t (timers w'))
  /\ (forall w id w' acts,
        reachable key w -> step key w (TimerFires id) = Some (w', acts) ->
        debounceRef w = Some id /\ S id = next_timer w /\ timers w' = [])
  /\ (forall w q es w' acts,
        reachable key w ->
        quiet 0 es = true ->
        run key w (Change q :: es) = Some (w', acts) ->
        length (calls Geocode acts) <= 1
        /\ one_call key (calls Geocode acts) (last_text q es)).
Proof.
  split; [|split; [|split]].
  - intros w R. destruct (reachable_inv key w R) as (_ & (_ & [->|(t & -> & _)]) & _);
      cbn [length]; lia.
  - intros w v w' acts R H.
    destruct (reachable_inv key w R) as (_ & T & I).
    destruct (change_arms key w v w' acts T I H) as (_ & _ & Tm).
    split; [exact Tm|]. intros t In_t.
    destruct Tm as [-> | ->]; [intros E; destruct E|]. intros [<-|E]; [|destruct E].
    destruct T as (_ & [T|(t0 & T & _ & _ & P)]); rewrite T in In_t;
      [destruct In_t|]. destruct In_t as [E|E]; [|destruct E].
    rewrite E in P. cbn [tid] in P. lia.
  - intros w id w' acts R H.
    destruct (reachable_inv key w R) as (_ & T & _).
    destruct (timer_fires key w id w' acts T H) as (t & _ & _ & _ & A & B & C & _).
    auto.
  - intros w q es w' acts R Q H.
    destruct (reachable_inv key w R) as (_ & T & I).
    cbn [run] in H.
    destruct (step key w (Change q)) as [[w1 a1]|] eqn:S; [|discriminate].
    destruct (run key w1 es) as [[w2 a2]|] eqn:Rn; [|discriminate].
    injection H as <- <-.
    destruct (change_arms key w q w1 a1 T I S) as (Ck & Ca & Tm).
    assert (B : burst_inv key 0 q w1 []).
    { split; [exact (timer_inv_step key w _ w1 a1 T S)|].
      split; [exact (idle_inv_step key w _ w1 a1 I S)|].
      split; [|left; reflexivity].
      intros t In_t.
      destruct Tm as [Tm|Tm]; rewrite Tm in In_t; [destruct In_t|].
      destruct In_t as [<-|E]; [|destruct E].
      cbn [tq due]. split; [reflexivity|lia]. }
    pose proof (burst_run key es 0 q w1 [] w2 a2 B Q Rn) as O.
    rewrite calls_app, Ca. cbn [app] in *.
    split; [|exact O].
    destruct O as [->|(e & _ & ->)]; cbn [length]; lia.
Qed.

Lemma debounce_coalesces_witness :
  quiet 0 typing_burst = true
  /\ match run (Some `"k") init (Change `"Pa" :: typing_burst) with
     | Some (_, acts) =>
         length (calls Geocode acts) <= 1
         /\ one_call (Some `"k") (calls Geocode acts) `"Pari"
     | None => False
     end.
Proof.
  assert (Q : quiet 0 typing_burst = true) by reflexivity.
  assert (R : reachable (Some `"k") init) by (exists []; reflexivity).
  split; [exact Q|].
  destruct (run (Some `"k") init (Change `"Pa" :: typing_burst))
    as [[w acts]|] eqn:H.
  - exact (proj2 (proj2 (proj2 (debounce_coalesces (Some `"k"))))
             init `"Pa" typing_burst w acts R Q H).
  - vm_compute in H. discriminate H.
Defined.

(** This run does make the call, for the last text. *)
Example typing_burst_calls :
  option_map (fun r => calls Geocode (snd r))
    (run (Some `"k") init (Change `"Pa" :: typing_burst))
  = Some [`"https://api.openweathermap.org/geo/1.0/direct?q=Pari&limit=6&appid=k"].
Proof. reflexivity. Qed.

(** A timer that is not due cannot fire, and a cancelled one never does. *)
Example early_timer_cannot_fire :
  run (Some `"k") init [Change `"Pa"; Elapse 249; TimerFires 1] = None.
Proof. reflexivity. Qed.

Example cancelled_timer_cannot_fire :
  run (Some `"k") init [Change `"Pa"; Elapse 100; Change `"Par"; Elapse 250; TimerFires 1]
  = None.
Proof. reflexivity. Qed.

(** ** The geocoding request and its answer *)

Lemma hex_plain d : plain (JS.hex d) = true.
Proof.
  unfold plain, JS.hex. destruct (N.ltb_spec d 10);
    apply andb_true_iff; split; apply negb_true_iff, N.eqb_neq; lia.
Qed.

Lemma percent_plain b : forallb plain (JS.percent b) = true.
Proof.
  unfold JS.percent. cbn [forallb]. rewrite !hex_plain. reflexivity.
Qed.

Lemma forallb_flat_map {A B} (p : B -> bool) (f : A -> list B) l :
  (forall x, forallb p (f x) = true) -> forallb p (flat_map f l) = true.
Proof.
  intros H. induction l as [|x l IH]; [reflexivity|].
  cbn [flat_map]. rewrite forallb_app, H, IH. reflexivity.
Qed.

Lemma escape_plain cp : forallb plain (JS.escape cp) = true.
Proof.
  unfold JS.escape. destruct (JS.unreserved cp) eqn:U.
  - cbn [forallb]. rewrite andb_true_r. unfold plain.
    destruct (N.eqb_spec cp 38) as [->|_]; [discriminate U|].
    destruct (N.eqb_spec cp 63) as [->|_]; [discriminate U|]. reflexivity.
  - apply forallb_flat_map, percent_plain.
Qed.

Lemma encode_plain q e :
  JS.encodeURIComponent q = Some e -> forallb plain e = true.
Proof.
  unfold JS.encodeURIComponent. destruct (JS.code_points q); [|discriminate].
  intros H. injection H as <-. apply forallb_flat_map, escape_plain.
Qed.

Lemma break_app c a b :
  forallb (fun x => negb (x =? c)%N) a = true ->
  JS.break c (a ++ c :: b) = (a, Some b).
Proof.
  induction a as [|x a IH]; cbn [forallb app JS.break]; intros H.
  - rewrite N.eqb_refl. reflexivity.
  - apply andb_true_iff in H as (H1 & H2). apply negb_true_iff in H1.
    rewrite H1, (IH H2). reflexivity.
Qed.

Lemma pieces_app a b : forall cur,
  forallb (fun x => negb (x =? 38)%N) a = true ->
  JS.pieces (a ++ 38%N :: b) cur = (rev cur ++ a) :: JS.pieces b [].
Proof.
  induction a as [|x a IH]; cbn [forallb app JS.pieces]; intros cur H.
  - rewrite app_nil_r. reflexivity.
  - apply andb_true_iff in H as (H1 & H2). apply negb_true_iff in H1.
    rewrite H1, (IH _ H2). cbn [rev]. rewrite <- app_assoc. reflexivity.
Qed.

Lemma plain_no_amp e :
  forallb plain e = true -> forallb (fun x => negb (x =? 38)%N) e = true.
Proof.
  intros H. rewrite forallb_forall in *. intros x I.
  specialize (H x I). unfold plain in H. apply andb_true_iff in H. apply H.
Qed.

Lemma geocode_url_params key e :
  forallb plain e = true ->
  JS.search_param `"limit" (geocode_url key e) = Some `"6"
  /\ JS.search_param `"q" (geocode_url key e) = Some e.
Proof.
  intros P. unfold JS.search_param, geocode_url.
  change (`"?q=" ++ e ++ `"&limit=6&appid=" ++ key_text key)
    with (63%N :: (`"q=" ++ e) ++ 38%N :: `"limit=6" ++ 38%N :: `"appid=" ++ key_text key).
  rewrite (break_app 63 API_GEOCODE _ eq_refl). cbn [snd].
  assert (Q : forallb (fun x => negb (x =? 38)%N) (`"q=" ++ e) = true).
  { rewrite forallb_app, (plain_no_amp e P). reflexivity. }
  rewrite (pieces_app _ _ [] Q).
  rewrite (pieces_app `"limit=6" _ [] eq_refl).
  cbn [rev app]. change (`"q=") with [113%N; 61%N]. cbn [app].
  cbn [JS.lookup_piece JS.break]. cbn [N.eqb Pos.eqb fst snd].
  split; reflexivity.
Qed.

(** The label and the value, one field at a time. *)
Lemma suggestion_of_spec it :
  label (suggestion_of it) = spec_label it
  /\ value (suggestion_of it) = spec_value it.
Proof.
  unfold suggestion_of, spec_label, spec_value. cbn [label value given].
  destruct (present (state it)), (present (country it)); cbn [join];
    rewrite ?app_nil_r; auto.
Qed.

(** C8.  The timer callback requests the geocoding URL with the text
    escaped and [limit=6]: the server reads 6 for [limit] and the escaped
    text for [q].  An [ok] answer holding an array puts on screen one
    suggestion per entry, in order: the label is the name, the state and
    the country joined by ", ", the value the name and the country joined
    by ",", a field taking part when it holds a non-empty string.  The
    entry Paris/FR gives "Paris, FR" and "Paris,FR". *)
Theorem geocoding_request_and_labels (key : ApiKey) :
  (forall q w,
     (exists e, JS.encodeURIComponent q = Some e
                /\ actions (lookup_fire key q) w = [Fetch Geocode (geocode_url key e)])
     \/ JS.encodeURIComponent q = None
        /\ calls Geocode (actions (lookup_fire key q) w) = [])
  /\ (forall q w u,
        In u (calls Geocode (actions (lookup_fire key q) w)) ->
        JS.search_param `"limit" u = Some `"6")
  /\ (forall l w,
        suggestions (after (lookup_resume (GResponse true (GBodyArray l))) w)
        = map suggestion_of l)
  /\ (forall it,
        label (suggestion_of it) = spec_label it
        /\ value (suggestion_of it) = spec_value it)
  /\ suggestion_of paris_fr = {| label := `"Paris, FR"; value := `"Paris,FR" |}.
Proof.
  split; [|split; [|split; [|split]]].
  - intros q w. unfold lookup_fire.
    destruct (JS.encodeURIComponent q) as [e|]; [left; eauto|right; auto].
  - intros q w u. unfold lookup_fire.
    destruct (JS.encodeURIComponent q) as [e|] eqn:E; [|intros []].
    intros [<-|[]]. apply geocode_url_params, (encode_plain q e E).
  - reflexivity.
  - apply suggestion_of_spec.
  - reflexivity.
Qed.

Lemma geocoding_request_and_labels_witness :
  JS.search_param `"limit" (geocode_url (Some `"k") `"New%20York") = Some `"6".
Proof.
  apply (proj1 (proj2 (geocoding_request_and_labels (Some `"k")))
           `"New York" init).
  left. reflexivity.
Defined.

(** A state or a country that is an empty string is left out, like one
    that is not there. *)
Example empty_field_is_left_out :
  suggestion_of {| name := `"Paris"; state := Some JS.empty; country := Some `"FR" |}
  = suggestion_of paris_fr.
Proof. reflexivity. Qed.

Example label_with_state :
  suggestion_of paris_tx
  = {| label := `"Paris, Texas, US"; value := `"Paris,US" |}.
Proof. reflexivity. Qed.

(* ===================================================================== *)
(** * Further properties of the component *)
(* ===================================================================== *)

(** ** Runs *)

Lemma run_cons key w e es w' acts :
  run key w (e :: es) = Some (w', acts) ->
  exists w1 a1 a2,
    step key w e = Some (w1, a1) /\ run key w1 es = Some (w', a2)
    /\ acts = a1 ++ a2.
Proof.
  cbn [run]. destruct (step key w e) as [[w1 a1]|]; [|discriminate].
  destruct (run key w1 es) as [[w2 a2]|] eqn:R; [|discriminate].
  intros H. injection H as <- <-. exists w1, a1, a2. auto.
Qed.

Lemma in_calls s u acts : In u (calls s acts) -> In (Fetch s u) acts.
Proof.
  induction acts as [|a acts IH]; [intros []|].
  destruct a as [v|d|m|c|l|c|h| |id|id q ms|s' u']; cbn [calls In];
    try (intros H; right; exact (IH H)).
  destruct s', s; cbn [site_eqb]; cbn [In];
    try (intros [->|H]; [left; reflexivity|right; exact (IH H)]);
    intros H; right; exact (IH H).
Qed.

(** ** Without a key *)

Lemma idle_step_calls key w e w' acts :
  key_missing key = true ->
  idle_inv key w ->
  step key w e = Some (w', acts) ->
  forall s, calls s acts = [].
Proof.
  intros K I H. destruct (I K) as (T & F & S & O & Hh & L).
  apply step_handler in H as (m & H & -> & ->).
  handler_cases H; intros x.
  - unfold onChange, lookup. rewrite K. reflexivity.
  - unfold onKeyDown, highlighted, fetchWeather. rewrite O, K. cbn [andb].
    destruct (JS.eqb k `"Enter"), (JS.eqb k `"Escape"); reflexivity.
  - reflexivity.
  - reflexivity.
  - apply rendered_some in G as (O' & _). congruence.
  - unfold onDocClick. destruct inside; reflexivity.
  - unfold fetchWeather. rewrite K. reflexivity.
  - reflexivity.
  - unfold find_timer in G. rewrite T in G. discriminate.
  - unfold awaiting in G. rewrite F in G. discriminate.
  - unfold awaiting in G. rewrite F in G. discriminate.
Qed.

Lemma idle_run_calls key es : forall w w' acts,
  key_missing key = true ->
  idle_inv key w ->
  run key w es = Some (w', acts) ->
  idle_inv key w' /\ forall s, calls s acts = [].
Proof.
  induction es as [|e es IH]; intros w w' acts K I H.
  - cbn [run] in H. injection H as <- <-. auto.
  - apply run_cons in H as (w1 & a1 & a2 & S & R & ->).
    destruct (IH w1 w' a2 K (idle_inv_step key w e w1 a1 I S) R) as (I' & C).
    split; [exact I'|]. intros s.
    rewrite calls_app, (idle_step_calls key w e w1 a1 K I S), C. reflexivity.
Qed.

(** X1.  Without a key (the variable unset or empty) no run of the
    component ever performs a [fetch], of either service; at its end no
    request and no timer is pending, the list is empty, the dropdown
    closed, and the button is not in its loading state. *)
Theorem no_key_no_request (key : ApiKey) (es : list Event) (w : World)
    (acts : list Action) :
  key_missing key = true ->
  run key init es = Some (w, acts) ->
  (forall s u, ~ In (Fetch s u) acts)
  /\ inflight w = [] /\ timers w = [] /\ suggestions w = []
  /\ open w = false /\ loading w = false.
Proof.
  intros K H.
  destruct (init_inv key) as (_ & _ & I0).
  destruct (idle_run_calls key es init w acts K I0 H) as (I & C).
  destruct (I K) as (T & F & S & O & _ & L).
  split; [apply calls_none, C|]. auto 10.
Qed.

Lemma no_key_no_request_witness :
  match run None init [Change `"Paris"; Elapse 300; KeyDown `"Enter"; SearchClick] with
  | Some (w, acts) => (forall s u, ~ In (Fetch s u) acts) /\ inflight w = []
  | None => False
  end.
Proof.
  destruct (run None init
              [Change `"Paris"; Elapse 300; KeyDown `"Enter"; SearchClick])
    as [[w acts]|] eqn:H.
  - destruct (no_key_no_request None _ w acts eq_refl H) as (A & B & _).
    split; [exact A | exact B].
  - vm_compute in H. discriminate H.
Defined.

(** ** What is looked up *)

Lemma after_cancel_subset w t : In t (after_cancel w) -> In t (timers w).
Proof.
  unfold after_cancel.
  destruct (debounceRef w) as [id|]; [destruct (negb (id =? 0))|]; auto.
  intros H. apply filter_In in H. apply H.
Qed.

(** Where the timers of the next state come from. *)
Lemma step_timers key w e w' acts t :
  step key w e = Some (w', acts) ->
  In t (timers w') ->
  In t (timers w)
  \/ exists v, e = Change v /\ tq t = v /\ 2 <= length (JS.trim v)
               /\ key_missing key = false /\ due t = clock w + 250.
Proof.
  intros H I.
  destruct e;
    try (destruct (step_elsewhere key _ _ _ _ H) as (S & _);
         unfold sched in S; injection S as S1 _ _ _;
         rewrite S1 in I; left; exact I).
  - apply step_handler in H as (m & H & -> & ->).
    cbn [handler] in H. injection H as <-.
    unfold onChange in I. rewrite after_bind in I.
    set (w1 := after (setCity v) w) in *.
    destruct (lookup_cases key v w1)
      as (_ & _ & _ & [(_ & E)|[(_ & _ & _ & T & _)|(K & L & _ & T & _)]]).
    + rewrite E in I. left. exact I.
    + rewrite T in I. left. exact (after_cancel_subset w1 t I).
    + rewrite T in I. apply in_app_or in I as [I|[<-|[]]].
      * left. exact (after_cancel_subset w1 t I).
      * right. exists v. cbn [tq due]. repeat split; auto.
        apply orb_false_iff in L as (_ & L). apply Nat.ltb_ge in L. exact L.
  - apply step_handler in H as (m & H & -> & ->).
    cbn [handler] in H. injection H as <-. left. exact I.
  - apply step_handler in H as (m & H & -> & ->).
    cbn [handler] in H.
    destruct (find_timer id w) as [t0|]; [|discriminate].
    destruct (due t0 <=? clock w); [|discriminate].
    injection H as <-. rewrite after_bind in I.
    destruct (lookup_fire_frame key (tq t0) (after (expire id) w)) as (S & _).
    unfold sched in S. injection S as S1 _ _ _. rewrite S1 in I.
    apply filter_In in I. left. apply I.
Qed.

(** Where the geocoding calls of a step come from. *)
Lemma step_geocode key w e w' acts u :
  step key w e = Some (w', acts) ->
  In u (calls Geocode acts) ->
  exists t x, In t (timers w) /\ JS.encodeURIComponent (tq t) = Some x
              /\ u = geocode_url key x.
Proof.
  intros H I.
  destruct e;
    try (destruct (step_elsewhere key _ _ _ _ H) as (_ & C);
         rewrite C in I; destruct I).
  - apply step_handler in H as (m & H & -> & ->).
    cbn [handler] in H. injection H as <-.
    unfold onChange in I. rewrite actions_bind, calls_app in I.
    rewrite (proj2 (lookup_keeps key v _)) in I. destruct I.
  - apply step_handler in H as (m & H & -> & ->).
    cbn [handler] in H. injection H as <-. destruct I.
  - apply step_handler in H as (m & H & -> & ->).
    cbn [handler] in H.
    destruct (find_timer id w) as [t0|] eqn:F; [|discriminate].
    destruct (due t0 <=? clock w); [|discriminate].
    injection H as <-. rewrite actions_bind, calls_app in I.
    destruct (lookup_fire_frame key (tq t0) (after (expire id) w)) as (_ & _ & C).
    rewrite C in I. cbn [app] in I. unfold find_timer in F.
    apply find_some in F as (F & _).
    destruct (JS.encodeURIComponent (tq t0)) as [x|] eqn:E; [|destruct I].
    destruct I as [<-|[]]. exists t0, x. auto.
Qed.

Lemma run_geocode key es : forall (seen : list JS.str) w w' acts u,
  (forall t, In t (timers w) ->
     In (tq t) seen /\ 2 <= length (JS.trim (tq t))
     /\ key_missing key = false) ->
  run key w es = Some (w', acts) ->
  In u (calls Geocode acts) ->
  exists q x,
    In q (seen ++ typed_texts es) /\ 2 <= length (JS.trim q)
    /\ key_missing key = false
    /\ JS.encodeURIComponent q = Some x /\ u = geocode_url key x.
Proof.
  induction es as [|e es IH]; intros seen w w' acts u P H I.
  - cbn [run] in H. injection H as <- <-. destruct I.
  - apply run_cons in H as (w1 & a1 & a2 & S & R & ->).
    rewrite calls_app in I. apply in_app_or in I as [I|I].
    + destruct (step_geocode key w e w1 a1 u S I) as (t & x & T & E & ->).
      destruct (P t T) as (P1 & P2 & P3).
      exists (tq t), x. repeat split; auto. apply in_or_app. left. exact P1.
    + assert (Q : typed_texts (e :: es)
                  = match e with Change v => [v] | _ => [] end ++ typed_texts es)
        by (destruct e; reflexivity).
      rewrite Q, app_assoc.
      apply (IH _ w1 w' a2 u); [|exact R|exact I].
      intros t T.
      destruct (step_timers key w e w1 a1 t S T) as [T0|(v & -> & <- & L & K & _)].
      * destruct (P t T0) as (P1 & P2 & P3). repeat split; auto.
        apply in_or_app. left. exact P1.
      * repeat split; auto. apply in_or_app. right. left. reflexivity.
Qed.

(** X2.  Over any run from mount, every geocoding request is for a text
    that was typed during the run and whose trimmed length is at least 2,
    escaped, and is made with a key: short texts are never looked up, and
    nothing is looked up that the user did not type. *)
Theorem geocoding_only_for_typed_text (key : ApiKey) (es : list Event)
    (w : World) (acts : list Action) (u : JS.str) :
  run key init es = Some (w, acts) ->
  In u (calls Geocode acts) ->
  exists q x,
    In q (typed_texts es) /\ 2 <= length (JS.trim q)
    /\ key_missing key = false
    /\ JS.encodeURIComponent q = Some x /\ u = geocode_url key x.
Proof.
  intros H I.
  apply (run_geocode key es [] init w acts u); [|exact H|exact I].
  intros t [].
Qed.

Lemma geocoding_only_for_typed_text_witness :
  exists q x,
    In q [`"P"; `"Pa"] /\ 2 <= length (JS.trim q)
    /\ key_missing (Some `"k") = false
    /\ JS.encodeURIComponent q = Some x
    /\ `"https://api.openweathermap.org/geo/1.0/direct?q=Pa&limit=6&appid=k"
       = geocode_url (Some `"k") x.
Proof.
  apply (geocoding_only_for_typed_text (Some `"k")
           [Change `"P"; Elapse 300; Change `"Pa"; Elapse 250; TimerFires 1]
           (after (lookup_fire (Some `"k") `"Pa")
              (with_clock 550 (with_timers [] typed)))
           [SetCity `"P"; SetSuggestions []; SetOpen false; SetHighlight (-1);
            SetCity `"Pa"; SetTimeout 1 `"Pa" 250;
            Fetch Geocode (geocode_url (Some `"k") `"Pa")]).
  - reflexivity.
  - left. reflexivity.
Defined.

(** ** What the weather is asked for *)

Lemma trimStart_head s :
  match JS.trimStart s with
  | [] => True
  | c :: _ => JS.is_space c = false
  end.
Proof.
  induction s as [|c s IH]; [exact I|].
  cbn [JS.trimStart]. destruct (JS.is_space c) eqn:E; [exact IH|exact E].
Qed.

Lemma trimStart_fixed c s :
  JS.is_space c = false -> JS.trimStart (c :: s) = c :: s.
Proof. intros E. cbn [JS.trimStart]. rewrite E. reflexivity. Qed.

Lemma trimStart_idem s : JS.trimStart (JS.trimStart s) = JS.trimStart s.
Proof.
  pose proof (trimStart_head s) as H.
  destruct (JS.trimStart s) as [|c r]; [reflexivity|].
  apply trimStart_fixed, H.
Qed.

(** [trimStart] drops a prefix. *)
Lemma trimStart_suffix s : exists p, s = p ++ JS.trimStart s.
Proof.
  induction s as [|c s (p & IH)]; [exists []; reflexivity|].
  cbn [JS.trimStart]. destruct (JS.is_space c).
  - exists (c :: p). cbn [app]. rewrite <- IH. reflexivity.
  - exists []. reflexivity.
Qed.

Lemma trimStart_last c l :
  JS.is_space c = false -> exists m, JS.trimStart (l ++ [c]) = m ++ [c].
Proof.
  intros E. induction l as [|x l (m & IH)]; cbn [app JS.trimStart].
  - rewrite E. exists []. reflexivity.
  - destruct (JS.is_space x); [exists m; exact IH|].
    exists (x :: l). reflexivity.
Qed.

Lemma trimEnd_head c s :
  JS.is_space c = false -> exists t, JS.trimEnd (c :: s) = c :: t.
Proof.
  intros E. unfold JS.trimEnd. cbn [rev].
  destruct (trimStart_last c (rev s) E) as (m & ->).
  rewrite rev_app_distr. exists (rev m). reflexivity.
Qed.

Lemma trim_idem s : JS.trim (JS.trim s) = JS.trim s.
Proof.
  unfold JS.trim.
  pose proof (trimStart_head s) as H.
  destruct (JS.trimStart s) as [|c r] eqn:A; [reflexivity|].
  destruct (trimEnd_head c r H) as (t & B).
  rewrite B, (trimStart_fixed c t H), <- B.
  unfold JS.trimEnd. rewrite rev_involutive, trimStart_idem. reflexivity.
Qed.

Lemma resolve_clean r q : clean_place (resolve r q).
Proof.
  unfold resolve, JS.or_else, clean_place.
  destruct (JS.trim _) as [|c t] eqn:T; cbn [JS.truthy].
  - split; [discriminate|reflexivity].
  - split; [discriminate|]. rewrite <- T. apply trim_idem.
Qed.

Lemma fetchWeather_calls key r q w :
  calls Weather (actions (fetchWeather key r q) w)
  = if key_missing key then []
    else match JS.encodeURIComponent (resolve r q) with
         | Some e => [weather_url key e]
         | None => []
         end.
Proof.
  rewrite fetchWeather_actions.
  destruct (key_missing key); [reflexivity|].
  destruct (JS.encodeURIComponent (resolve r q)); reflexivity.
Qed.

Lemma fetchWeather_clean key r q w u :
  In u (calls Weather (actions (fetchWeather key r q) w)) ->
  key_missing key = false /\ clean_weather_url key u.
Proof.
  rewrite fetchWeather_calls.
  destruct (key_missing key); [intros []|].
  destruct (JS.encodeURIComponent (resolve r q)) as [e|] eqn:E; [|intros []].
  intros [<-|[]]. split; [reflexivity|].
  exists (resolve r q), e. split; [apply resolve_clean|auto].
Qed.

Lemma pick_weather key r s w :
  calls Weather (actions (pick key r s) w)
  = calls Weather (actions (fetchWeather key r (Some (value s))) w).
Proof.
  unfold pick. rewrite !actions_bind, !calls_app.
  rewrite !fetchWeather_calls. reflexivity.
Qed.

Lemma onKeyDown_weather key r k w u :
  In u (calls Weather (actions (onKeyDown key r k) w)) ->
  key_missing key = false /\ clean_weather_url key u.
Proof.
  unfold onKeyDown. destruct (open r && _); [intros []|].
  rewrite actions_bind, calls_app. intros I.
  apply in_app_or in I as [I|I].
  - destruct (JS.eqb k `"Enter"); [|destruct I].
    destruct (highlighted r) as [s|].
    + rewrite pick_weather in I. exact (fetchWeather_clean _ _ _ _ _ I).
    + exact (fetchWeather_clean _ _ _ _ _ I).
  - destruct (JS.eqb k `"Escape"); destruct I.
Qed.

Lemma step_weather key w e w' acts u :
  step key w e = Some (w', acts) ->
  In u (calls Weather acts) ->
  key_missing key = false /\ clean_weather_url key u.
Proof.
  intros H I. apply step_handler in H as (m & H & -> & ->).
  handler_cases H.
  - unfold onChange in I. rewrite actions_bind, calls_app in I.
    rewrite (proj2 (lookup_keeps key v _)) in I. destruct I.
  - exact (onKeyDown_weather _ _ _ _ _ I).
  - destruct I.
  - destruct I.
  - rewrite actions_bind, calls_app, pick_weather in I.
    exact (fetchWeather_clean _ _ _ _ _ I).
  - unfold onDocClick in I. destruct inside; destruct I.
  - exact (fetchWeather_clean _ _ _ _ _ I).
  - destruct I.
  - rewrite actions_bind, calls_app in I. unfold lookup_fire in I.
    destruct (JS.encodeURIComponent (tq t)); destruct I.
  - rewrite actions_bind, calls_app in I. unfold lookup_resume in I.
    destruct (geo_items a); destruct I.
  - rewrite actions_bind, calls_app in I. unfold fetchWeather_resume in I.
    destruct a as [m|[] status text [j|m]]; destruct I.
Qed.

(** X3.  Over any run, from any state, every weather request is made with
    a key and is the weather URL of a place that is not empty and has no
    white space at either end, escaped: the text is trimmed and an empty
    one replaced before it is sent. *)
Theorem weather_only_for_clean_place (key : ApiKey) (es : list Event) :
  forall (w w' : World) (acts : list Action) (u : JS.str),
  run key w es = Some (w', acts) ->
  In u (calls Weather acts) ->
  key_missing key = false /\ clean_weather_url key u.
Proof.
  induction es as [|e es IH]; intros w w' acts u H I.
  - cbn [run] in H. injection H as <- <-. destruct I.
  - apply run_cons in H as (w1 & a1 & a2 & S & R & ->).
    rewrite calls_app in I. apply in_app_or in I as [I|I].
    + exact (step_weather key w e w1 a1 u S I).
    + exact (IH w1 w' a2 u R I).
Qed.

Lemma weather_only_for_clean_place_witness :
  key_missing (Some `"k") = false
  /\ clean_weather_url (Some `"k")
       `"https://api.openweathermap.org/data/2.5/weather?q=Par&appid=k&units=metric".
Proof.
  apply (weather_only_for_clean_place (Some `"k")
           [Change `" Par "; KeyDown `"Enter"] init
           (after (onKeyDown (Some `"k") (with_city `" Par " init) `"Enter")
              (after (onChange (Some `"k") `" Par ") init))
           (actions (onChange (Some `"k") `" Par ") init
            ++ actions (onKeyDown (Some `"k") (with_city `" Par " init) `"Enter")
                 (after (onChange (Some `"k") `" Par ") init) ++ [])).
  - reflexivity.
  - left. reflexivity.
Defined.

(** ** The parameters of the two requests *)






(** ** The answer of the weather service *)

Lemma or_else_truthy a b :
  JS.truthy b = true -> JS.truthy (JS.or_else a b) = true.
Proof.
  intros H. unfold JS.or_else. destruct (JS.truthy a) eqn:A; [exact A|exact H].
Qed.

(** The message a failed answer leaves; [None] for an answer that is fine. *)
Lemma fetchWeather_resume_cases a w :
  let w' := after (fetchWeather_resume a) w in
  loading w' = false
  /\ actions (fetchWeather_resume a) w
     = [match a with
        | WResponse true _ _ (WBodyJson j) => SetData j
        | _ => SetError (error w')
        end; SetLoading false]
  /\ match a with
     | WResponse true _ _ (WBodyJson j) => data w' = j /\ error w' = error w
     | _ => data w' = data w /\ JS.truthy (error w') = true
     end.
Proof.
  unfold fetchWeather_resume.
  destruct a as [m|[] st text [j|m]]; run_m;
    repeat split; try (apply or_else_truthy; reflexivity).
Qed.

(** What an answer of the weather service does. *)
Lemma weather_answer_step (key : ApiKey) (w : World) (id : nat)
    (a : WeatherReply) (w' : World) (acts : list Action) :
  step key w (WeatherReplies id a) = Some (w', acts) ->
  loading w' = false
  /\ match a with
     | WResponse true _ _ (WBodyJson j) => data w' = j /\ error w' = error w
     | _ => data w' = data w /\ JS.truthy (error w') = true
            /\ status w' = Failed (error w')
     end
  /\ (forall st text body,
        a = WResponse false st text body ->
        error w' = `"Error " ++ JS.of_number st ++ `": " ++ text)
  /\ ui w' = ui w /\ sched w' = sched w /\ city w' = city w
  /\ forall s, calls s acts = [].
Proof.
  intros H. apply step_handler in H as (m & H & -> & ->).
  cbn [handler] in H. destruct (awaiting Weather id w); [|discriminate].
  injection H as <-. rewrite after_bind, actions_bind.
  set (w1 := after (settle id) w).
  destruct (fetchWeather_resume_cases a w1) as (L & A & D).
  destruct (fetchWeather_resume_frame a w1) as (U & S & _).
  cbv zeta in *.
  split; [exact L|]. split; [|split; [|split; [exact U|split; [exact S|split]]]].
  - destruct a as [m|[] st text [j|m]]; try exact D;
      (destruct D as (D1 & D2); split; [exact D1|]; split; [exact D2|];
       unfold status; rewrite L, D2; reflexivity).
  - intros st text body ->. unfold fetchWeather_resume. reflexivity.
  - unfold fetchWeather_resume.
    destruct a as [m|[] st text [j|m]]; reflexivity.
  - intros s. rewrite calls_app, A. cbn [actions settle snd calls].
    destruct a as [m|[] st text [j|m]]; reflexivity.
Qed.

(** X5.  When the weather service answers, the loading state ends,
    whatever the answer.  An [ok] answer with a readable body stores the
    payload and leaves [error] alone.  Every other answer (a rejected
    [fetch], a status that is not [ok], a body that cannot be read) leaves
    [data] alone and sets a message that is never empty, so that the status
    is [Failed]; for a status that is not [ok] the message is
    "Error <status>: <statusText>".  The list, the dropdown, the box and
    the timers are not touched, and nothing is requested. *)
Theorem weather_answer_outcome (key : ApiKey) (w : World) (id : nat)
    (a : WeatherReply) (w' : World) (acts : list Action) :
  step key w (WeatherReplies id a) = Some (w', acts) ->
  loading w' = false
  /\ match a with
     | WResponse true _ _ (WBodyJson j) => data w' = j /\ error w' = error w
     | _ => data w' = data w /\ JS.truthy (error w') = true
            /\ status w' = Failed (error w')
     end
  /\ (forall st text body,
        a = WResponse false st text body ->
        error w' = `"Error " ++ JS.of_number st ++ `": " ++ text)
  /\ ui w' = ui w /\ sched w' = sched w /\ city w' = city w
  /\ forall s, calls s acts = [].
Proof. exact (weather_answer_step key w id a w' acts). Qed.

Lemma weather_answer_outcome_witness :
  match step (Some `"k")
          (with_inflight [{| rid := 3; site := Weather; url := API_WEATHER |}]
             (with_loading true shown)) (WeatherReplies 3
             (WResponse false 404 `"Not Found" (WBodyThrows JS.empty))) with
  | Some (w', _) =>
      loading w' = false /\ error w' = `"Error 404: Not Found"
      /\ data w' = Some (JsonText `"{}")
  | None => False
  end.
Proof.
  destruct (step (Some `"k")
              (with_inflight [{| rid := 3; site := Weather; url := API_WEATHER |}]
                 (with_loading true shown))
              (WeatherReplies 3
                 (WResponse false 404 `"Not Found" (WBodyThrows JS.empty))))
    as [[w' acts]|] eqn:H.
  - destruct (weather_answer_outcome _ _ _ _ _ _ H) as (L & (D & _) & E & _).
    split; [exact L|]. split; [exact (E _ _ _ eq_refl) | exact D].
  - vm_compute in H. discriminate H.
Defined.

(** ** A whole search *)

Lemma awaiting_fetched s id u w :
  awaiting s id
    (with_next_request (S id)
       (with_inflight (inflight w ++ [{| rid := id; site := s; url := u |}]) w))
  = true.
Proof.
  unfold awaiting. cbn [inflight with_inflight with_next_request].
  rewrite existsb_app. cbn [existsb rid site].
  rewrite Nat.eqb_refl. destruct s; cbn; apply orb_true_r.
Qed.

(** X6.  A search from the button, with a key and a place that can be
    escaped: the click empties [error] and [data], enters the loading
    state and requests the weather URL of the resolved place, once.  When
    that request is answered the loading state ends: with the payload, the
    status is [Ready] of it; with an empty ([null]) payload, [Idle];
    otherwise [Failed] with the message of the failure. *)
Theorem search_completes (key : ApiKey) (w : World) (e : JS.str)
    (a : WeatherReply) :
  key_missing key = false ->
  loading w = false ->
  JS.encodeURIComponent (resolve w None) = Some e ->
  exists w1 a1 w2 a2,
    step key w SearchClick = Some (w1, a1)
    /\ status w1 = Loading
    /\ a1 = [SetError JS.empty; SetData None; SetLoading true;
             Fetch Weather (weather_url key e)]
    /\ step key w1 (WeatherReplies (next_request w) a) = Some (w2, a2)
    /\ (forall s, calls s a2 = [])
    /\ status w2
       = match a with
         | WResponse true _ _ (WBodyJson (Some j)) => Ready j
         | WResponse true _ _ (WBodyJson None) => Idle
         | _ => Failed (error w2)
         end.
Proof.
  intros K L E.
  assert (A1 : actions (fetchWeather key w None) w
               = [SetError JS.empty; SetData None; SetLoading true;
                  Fetch Weather (weather_url key e)]).
  { rewrite fetchWeather_actions, K, E. reflexivity. }
  assert (W1 : after (fetchWeather key w None) w
               = with_next_request (S (next_request w))
                   (with_inflight
                      (inflight w
                       ++ [{| rid := next_request w; site := Weather;
                              url := weather_url key e |}])
                      (with_loading true
                         (with_data None (with_error JS.empty w))))).
  { unfold fetchWeather. rewrite K, E. reflexivity. }
  set (w1 := after (fetchWeather key w None) w) in *.
  assert (S1 : step key w SearchClick = Some (w1, actions (fetchWeather key w None) w)).
  { unfold step. cbn [handler]. rewrite L. reflexivity. }
  assert (G : awaiting Weather (next_request w) w1 = true).
  { rewrite W1.
    apply (awaiting_fetched Weather (next_request w) (weather_url key e)
             (with_loading true (with_data None (with_error JS.empty w)))). }
  destruct (step key w1 (WeatherReplies (next_request w) a))
    as [[w2 a2]|] eqn:S2.
  2:{ unfold step in S2. cbn [handler] in S2. rewrite G in S2. discriminate. }
  exists w1, (actions (fetchWeather key w None) w), w2, a2.
  split; [exact S1|]. split; [rewrite W1; reflexivity|].
  split; [exact A1|]. split; [exact S2|].
  destruct (weather_answer_step key w1 _ a w2 a2 S2) as (L2 & D & _ & _ & _ & _ & C).
  split; [exact C|].
  assert (E1 : error w1 = JS.empty) by (rewrite W1; reflexivity).
  destruct a as [m|[] st text [[j|]|m]];
    try (destruct D as (_ & _ & D); exact D);
    destruct D as (D1 & D2); unfold status; rewrite L2, D1, D2, E1; reflexivity.
Qed.

Lemma search_completes_witness :
  exists w1 a1 w2 a2,
    step (Some `"k") init SearchClick = Some (w1, a1)
    /\ status w1 = Loading
    /\ a1 = [SetError JS.empty; SetData None; SetLoading true;
             Fetch Weather (weather_url (Some `"k") `"Algiers")]
    /\ step (Some `"k") w1
         (WeatherReplies 1 (WResponse true 200 `"OK"
                              (WBodyJson (Some (JsonText `"{}")))))
       = Some (w2, a2)
    /\ (forall s, calls s a2 = [])
    /\ status w2 = Ready (JsonText `"{}").
Proof.
  exact (search_completes (Some `"k") init `"Algiers"
           (WResponse true 200 `"OK" (WBodyJson (Some (JsonText `"{}"))))
           eq_refl eq_refl eq_refl).
Defined.

(** ** A text that cannot be escaped *)

(** X7.  A text that holds a lone surrogate cannot be escaped, and is
    sent to neither service.  The weather search then enters and leaves
    the loading state at once and ends in [Failed] with a message; the
    timer callback of the lookup empties the list and closes the dropdown
    without a word. *)
Theorem unescapable_text_is_not_sent (key : ApiKey) :
  (forall r q w,
     key_missing key = false ->
     JS.encodeURIComponent (resolve r q) = None ->
     let m := fetchWeather key r q in
     (forall s, calls s (actions m w) = [])
     /\ inflight (after m w) = inflight w
     /\ loading (after m w) = false
     /\ data (after m w) = None
     /\ JS.truthy (error (after m w)) = true
     /\ status (after m w) = Failed (error (after m w)))
  /\ (forall q w,
        JS.encodeURIComponent q = None ->
        let m := lookup_fire key q in
        (forall s, calls s (actions m w) = [])
        /\ inflight (after m w) = inflight w
        /\ ui (after m w) = ([], false, (-1)%Z)
        /\ weather_cells (after m w) = weather_cells w).
Proof.
  split.
  - intros r q w K E m. subst m. rewrite fetchWeather_actions, K, E.
    unfold fetchWeather. rewrite K, E. repeat split.
  - intros q w E m. subst m. unfold lookup_fire. rewrite E. repeat split.
Qed.

Lemma unescapable_text_is_not_sent_witness :
  JS.encodeURIComponent (resolve init (Some [80; 55357]%N)) = None
  /\ calls Weather
       (actions (fetchWeather (Some `"k") init (Some [80; 55357]%N)) init) = []
  /\ loading (after (fetchWeather (Some `"k") init (Some [80; 55357]%N)) init)
     = false.
Proof.
  destruct (unescapable_text_is_not_sent (Some `"k")) as (A & _).
  destruct (A init (Some [80; 55357]%N) init eq_refl eq_refl) as (C & _ & L & _).
  split; [reflexivity|]. split; [exact (C Weather) | exact L].
Defined.

(** ** The loading state *)

Lemma sends_refl w w' :
  net w' = net w -> loading w' = loading w -> sends w w'.
Proof. intros N L. left. auto. Qed.

Lemma fetchWeather_sends key r q w :
  forall w0, net w0 = net w -> loading w0 = loading w ->
  sends w (after (fetchWeather key r q) w0).
Proof.
  intros w0 N L. unfold net in N. injection N as N1 N2. unfold fetchWeather.
  destruct (key_missing key).
  - left. unfold net. run_m. rewrite N1, N2. auto.
  - destruct (JS.encodeURIComponent (resolve r q)) as [e|].
    + right. exists Weather, (weather_url key e). run_m. rewrite N1, N2. auto.
    + left. unfold net. run_m. rewrite N1, N2. auto.
Qed.

Lemma pick_sends key r s w : sends w (after (pick key r s) w).
Proof.
  unfold pick. rewrite !after_bind. apply fetchWeather_sends; reflexivity.
Qed.

Lemma sends_then_quiet w w1 w2 :
  sends w w1 -> net w2 = net w1 -> loading w2 = loading w1 -> sends w w2.
Proof.
  unfold net. intros [(N & L)|(s & u & I & X & L)] N2 L2;
    injection N2 as N21 N22.
  - left. unfold net in *. injection N as N1 N3.
    split; [congruence|]. rewrite L2. exact L.
  - right. exists s, u. rewrite N21, N22, L2. auto.
Qed.

Lemma onKeyDown_sends key r k w : sends w (after (onKeyDown key r k) w).
Proof.
  unfold onKeyDown. destruct (open r && _).
  - apply sends_refl; reflexivity.
  - rewrite after_bind.
    set (m1 := if JS.eqb k `"Enter" then _ else _).
    assert (S1 : sends w (after m1 w)).
    { subst m1. destruct (JS.eqb k `"Enter").
      - destruct (highlighted r); [apply pick_sends|].
        apply fetchWeather_sends; reflexivity.
      - apply sends_refl; reflexivity. }
    apply (sends_then_quiet w (after m1 w)); [exact S1| |];
      destruct (JS.eqb k `"Escape"); reflexivity.
Qed.

Lemma lookup_quiet key q w :
  net (after (lookup key q) w) = net w
  /\ weather_cells (after (lookup key q) w) = weather_cells w.
Proof.
  unfold lookup. destruct (key_missing key); [auto|].
  run_m.
  destruct (debounceRef w) as [id|]; [destruct (negb (id =? 0))|];
    destruct (negb (JS.truthy q) || _); simpl_m; auto.
Qed.

Lemma NoDup_map_filter {A B} (f : A -> B) (p : A -> bool) l :
  NoDup (map f l) -> NoDup (map f (filter p l)).
Proof.
  induction l as [|x l IH]; cbn [map filter]; intros H; [exact H|].
  inversion H as [|y ys Hn Hd]; subst.
  destruct (p x); cbn [map]; [|exact (IH Hd)].
  constructor; [|exact (IH Hd)].
  intros I. apply Hn. apply in_map_iff in I as (z & E & I).
  apply filter_In in I as (I & _). apply in_map_iff. eauto.
Qed.

Lemma NoDup_map_same {A B} (f : A -> B) l x y :
  NoDup (map f l) -> In x l -> In y l -> f x = f y -> x = y.
Proof.
  induction l as [|z l IH]; cbn [map]; intros H Ix Iy E; [destruct Ix|].
  inversion H as [|u us Hn Hd]; subst.
  destruct Ix as [->|Ix], Iy as [->|Iy]; auto.
  - exfalso. apply Hn. rewrite E. apply in_map. exact Iy.
  - exfalso. apply Hn. rewrite <- E. apply in_map. exact Ix.
Qed.

Lemma sends_inv w w' :
  sends w w' -> requests_inv w /\ loading_inv w ->
  requests_inv w' /\ loading_inv w'.
Proof.
  intros [(N & L)|(s & u & I & X & L)] ((D & B) & Li).
  - unfold net in N. injection N as N1 N2.
    unfold requests_inv, loading_inv. rewrite N1, N2.
    split; [auto|]. intros T. destruct L as [L|L]; [|congruence].
    apply Li. congruence.
  - unfold requests_inv, loading_inv. rewrite I, X. split; [split|].
    + rewrite map_app. cbn [map rid]. apply NoDup_app_remove_l with (l := []).
      cbn [app]. apply NoDup_app; [exact D| | ].
      * constructor; [intros []|constructor].
      * intros x Hx [<-|[]]. apply in_map_iff in Hx as (q & E & Hq).
        specialize (B q Hq). lia.
    + intros q Hq. apply in_app_or in Hq as [Hq|[<-|[]]].
      * specialize (B q Hq). lia.
      * cbn [rid]. lia.
    + intros T. destruct L as [L | ->].
      * rewrite L in T. destruct (Li T) as (q & Hq & Sq).
        exists q. split; [apply in_or_app; left; exact Hq|exact Sq].
      * eexists. split; [apply in_or_app; right; left; reflexivity|reflexivity].
Qed.

Lemma settle_inv id w :
  requests_inv w -> requests_inv (after (settle id) w).
Proof.
  intros (D & B). unfold requests_inv. run_m. split.
  - apply NoDup_map_filter, D.
  - intros q Hq. apply filter_In in Hq as (Hq & _). exact (B q Hq).
Qed.

(** An answer to a geocoding request leaves the weather requests. *)
Lemma settle_other id w q :
  requests_inv w ->
  awaiting Geocode id w = true ->
  In q (inflight w) -> site q = Weather ->
  In q (inflight (after (settle id) w)).
Proof.
  intros (D & _) A Hq Sq. run_m. apply filter_In. split; [exact Hq|].
  unfold awaiting in A. apply existsb_exists in A as (g & Hg & G).
  apply andb_true_iff in G as (G1 & G2). apply Nat.eqb_eq in G1.
  destruct (Nat.eqb_spec (rid q) id) as [E|E]; [|reflexivity].
  assert (q = g) as -> by
    (apply (NoDup_map_same rid (inflight w)); auto; congruence).
  rewrite Sq in G2. discriminate.
Qed.

Lemma requests_step key w e w' acts :
  requests_inv w /\ loading_inv w ->
  step key w e = Some (w', acts) ->
  requests_inv w' /\ loading_inv w'.
Proof.
  intros I H. apply step_handler in H as (m & H & -> & ->).
  handler_cases H.
  - (* Change *)
    unfold onChange. rewrite after_bind.
    destruct (lookup_quiet key v (after (setCity v) w)) as (N & C).
    apply (sends_inv w); [|exact I]. apply sends_refl; [exact N|].
    unfold weather_cells in C. injection C as _ _ C. exact C.
  - apply (sends_inv w); [apply onKeyDown_sends|exact I].
  - exact I.
  - exact I.
  - rewrite after_bind. apply (sends_inv w); [|exact I].
    apply fetchWeather_sends; reflexivity.
  - unfold onDocClick. destruct inside; exact I.
  - apply (sends_inv w); [|exact I]. apply fetchWeather_sends; reflexivity.
  - exact I.
  - (* TimerFires *)
    rewrite after_bind. apply (sends_inv w); [|exact I].
    unfold lookup_fire. destruct (JS.encodeURIComponent (tq t)) as [x|].
    + right. exists Geocode, (geocode_url key x). run_m. auto.
    + apply sends_refl; reflexivity.
  - (* GeoReplies *)
    rewrite after_bind. destruct I as (R & L).
    set (w1 := after (settle id) w).
    assert (I1 : requests_inv w1 /\ loading_inv w1).
    { split; [apply settle_inv, R|]. intros T.
      destruct (L T) as (q & Hq & Sq). exists q.
      split; [exact (settle_other id w q R G Hq Sq)|exact Sq]. }
    apply (sends_inv w1); [|exact I1]. apply sends_refl.
    + destruct (lookup_resume_frame a w1) as (_ & F & _).
      unfold net. rewrite F. unfold lookup_resume.
      destruct (geo_items a); reflexivity.
    + unfold lookup_resume. destruct (geo_items a); reflexivity.
  - (* WeatherReplies *)
    rewrite after_bind. destruct I as (R & L).
    set (w1 := after (settle id) w).
    destruct (fetchWeather_resume_cases a w1) as (L1 & _).
    destruct (fetchWeather_resume_frame a w1) as (_ & _ & F & _).
    cbv zeta in L1. split.
    + destruct (settle_inv id w R) as (D & B). fold w1 in D, B.
      unfold requests_inv. rewrite F.
      replace (next_request (after (fetchWeather_resume a) w1))
        with (next_request w1);
        [auto|].
      unfold fetchWeather_resume.
      destruct a as [m|[] st text [j|m]]; reflexivity.
    + intros T. congruence.
Qed.

(** X8.  In every reachable state the requests under way carry distinct
    handles, and the loading state is on only while a weather request is
    under way: the Search button is never left disabled with nothing to
    wait for. *)
Theorem loading_has_a_request (key : ApiKey) (w : World) :
  reachable key w ->
  NoDup (map rid (inflight w))
  /\ (loading w = true ->
      exists q, In q (inflight w) /\ site q = Weather).
Proof.
  intros (es & H).
  destruct (run key init es) as [[w0 acts]|] eqn:R; [|discriminate H].
  injection H as ->.
  assert (I0 : requests_inv init /\ loading_inv init).
  { split; [split; [constructor|intros q []]|discriminate]. }
  destruct (run_invariant key (fun w => requests_inv w /\ loading_inv w)
              (requests_step key) es init w acts I0 R) as ((D & _) & L).
  split; [exact D | exact L].
Qed.

Lemma loading_has_a_request_witness :
  reachable (Some `"k") searching
  /\ loading searching = true
  /\ exists q, In q (inflight searching) /\ site q = Weather.
Proof.
  assert (R : reachable (Some `"k") searching) by (exists [SearchClick]; reflexivity).
  destruct (loading_has_a_request (Some `"k") searching R) as (_ & L).
  split; [exact R|]. split; [reflexivity | exact (L eq_refl)].
Defined.

(** The converse fails: of two searches under way, the first answer ends
    the loading state. *)
Example loading_ends_at_first_answer :
  option_map (fun r => (loading (fst r), length (inflight (fst r))))
    (run (Some `"k") init
       [SearchClick; KeyDown `"Enter";
        WeatherReplies 1 (WRejected `"Failed to fetch")])
  = Some (false, 1).
Proof. reflexivity. Qed.

(** ** Keys *)

(** X9.  A key other than Enter and Escape does nothing when it is not
    an arrow, and nothing when the dropdown is closed: the state stays as
    it is, no setter runs, no request leaves, and the default action is
    not suppressed. *)
Theorem other_keys_do_nothing (key : ApiKey) (w : World) (k : JS.str) :
  JS.eqb k `"Enter" = false ->
  JS.eqb k `"Escape" = false ->
  open w = false
  \/ JS.eqb k `"ArrowDown" = false /\ JS.eqb k `"ArrowUp" = false ->
  step key w (KeyDown k) = Some (w, []).
Proof.
  intros E1 E2 C. unfold step. cbn [handler].
  unfold onKeyDown. rewrite E1, E2.
  replace (open w && (JS.eqb k `"ArrowDown" || JS.eqb k `"ArrowUp")) with false.
  - destruct w. reflexivity.
  - destruct C as [->|(-> & ->)]; [reflexivity|]. symmetry. apply andb_false_r.
Qed.

Lemma other_keys_do_nothing_witness :
  step (Some `"k") browsing (KeyDown `"a") = Some (browsing, [])
  /\ step (Some `"k") typed (KeyDown `"ArrowDown") = Some (typed, []).
Proof.
  split.
  - exact (other_keys_do_nothing (Some `"k") browsing `"a" eq_refl eq_refl
             (or_intror (conj eq_refl eq_refl))).
  - exact (other_keys_do_nothing (Some `"k") typed `"ArrowDown" eq_refl eq_refl
             (or_introl eq_refl)).
Defined.

(** ** Going round the list *)

Lemma arrow_step key w k :
  open w = true ->
  JS.eqb k `"ArrowDown" || JS.eqb k `"ArrowUp" = true ->
  step key w (KeyDown k)
  = Some (with_highlight (move_highlight w k (highlight w)) w,
          [PreventDefault; SetHighlight (move_highlight w k (highlight w))]).
Proof.
  intros O A. unfold step. cbn [handler]. unfold onKeyDown.
  rewrite O, A. reflexivity.
Qed.

Lemma run_arrows key k n : forall w (f : Z -> Z),
  open w = true ->
  JS.eqb k `"ArrowDown" || JS.eqb k `"ArrowUp" = true ->
  (forall v, move_highlight w k v = f v) ->
  exists w' acts,
    run key w (repeat (KeyDown k) n) = Some (w', acts)
    /\ highlight w' = Nat.iter n f (highlight w)
    /\ suggestions w' = suggestions w /\ open w' = true
    /\ forall s, calls s acts = [].
Proof.
  induction n as [|n IH]; intros w f O A F.
  - exists w, []. cbn [repeat run]. auto.
  - cbn [repeat run]. rewrite (arrow_step key w k O A).
    set (w1 := with_highlight (move_highlight w k (highlight w)) w).
    destruct (IH w1 f O A F) as (w' & acts & R & H & S & O' & C).
    rewrite R. exists w', ([PreventDefault;
                           SetHighlight (move_highlight w k (highlight w))] ++ acts).
    split; [reflexivity|]. split.
    + rewrite H, Nat.iter_succ_r, <- F. reflexivity.
    + split; [exact S|]. split; [exact O'|]. intros s. exact (C s).
Qed.

Lemma next_mod k x :
  (0 <= x < k)%Z ->
  (if (x >=? k - 1)%Z then 0 else x + 1)%Z = ((x + 1) mod k)%Z.
Proof.
  intros H. destruct (Z.geb_spec x (k - 1)) as [G|G].
  - replace (x + 1)%Z with k by lia. rewrite Z.mod_same; lia.
  - rewrite Z.mod_small; lia.
Qed.

Lemma prev_mod k x :
  (0 <= x < k)%Z ->
  (if (x <=? 0)%Z then k - 1 else x - 1)%Z = ((x - 1) mod k)%Z.
Proof.
  intros H. destruct (Z.leb_spec x 0) as [G|G].
  - replace (x - 1)%Z with ((k - 1) + (-1) * k)%Z by lia.
    rewrite Z.mod_add by lia. rewrite Z.mod_small; lia.
  - rewrite Z.mod_small; lia.
Qed.

Lemma iter_down k n h :
  (0 < k)%Z -> (0 <= h < k)%Z ->
  Nat.iter n (fun v => if (v >=? k - 1)%Z then 0 else v + 1)%Z h
  = ((h + Z.of_nat n) mod k)%Z.
Proof.
  intros K H. induction n as [|n IH].
  - simpl Nat.iter. rewrite Z.add_0_r, Z.mod_small; lia.
  - rewrite Nat.iter_succ, IH.
    rewrite next_mod by (apply Z.mod_pos_bound; exact K).
    rewrite Z.add_mod_idemp_l by lia. f_equal. lia.
Qed.

Lemma iter_up k n h :
  (0 < k)%Z -> (0 <= h < k)%Z ->
  Nat.iter n (fun v => if (v <=? 0)%Z then k - 1 else v - 1)%Z h
  = ((h - Z.of_nat n) mod k)%Z.
Proof.
  intros K H. induction n as [|n IH].
  - simpl Nat.iter. rewrite Z.sub_0_r, Z.mod_small; lia.
  - rewrite Nat.iter_succ, IH.
    rewrite prev_mod by (apply Z.mod_pos_bound; exact K).
    rewrite Zminus_mod_idemp_l. f_equal. lia.
Qed.

(** X10.  With the dropdown open over [k > 0] suggestions and the
    highlight on one of them, [n] presses of ArrowDown move the highlight
    to [(h + n) mod k] and [n] presses of ArrowUp to [(h - n) mod k]: [k]
    presses of either come back to where they started, and one undoes the
    other.  The list stays, the dropdown stays open, nothing is
    requested. *)
Theorem arrows_go_round (key : ApiKey) (w : World) (k : Z) (n : nat) :
  open w = true ->
  Z.of_nat (length (suggestions w)) = k ->
  (0 <= highlight w < k)%Z ->
  (exists w' acts,
     run key w (repeat (KeyDown `"ArrowDown") n) = Some (w', acts)
     /\ highlight w' = ((highlight w + Z.of_nat n) mod k)%Z
     /\ suggestions w' = suggestions w /\ open w' = true
     /\ forall s, calls s acts = [])
  /\ (exists w' acts,
        run key w (repeat (KeyDown `"ArrowUp") n) = Some (w', acts)
        /\ highlight w' = ((highlight w - Z.of_nat n) mod k)%Z
        /\ suggestions w' = suggestions w /\ open w' = true
        /\ forall s, calls s acts = []).
Proof.
  intros O L H. assert (K : (0 < k)%Z) by lia. split.
  - destruct (run_arrows key `"ArrowDown" n w
                (fun v => if (v >=? k - 1)%Z then 0 else v + 1)%Z O eq_refl)
      as (w' & acts & R & Hh & S & O' & C).
    { intros v. unfold move_highlight.
      rewrite L. destruct (Z.ltb_spec (k - 1) 0); [lia|]. reflexivity. }
    exists w', acts. rewrite Hh, (iter_down k n (highlight w) K H). auto.
  - destruct (run_arrows key `"ArrowUp" n w
                (fun v => if (v <=? 0)%Z then k - 1 else v - 1)%Z O eq_refl)
      as (w' & acts & R & Hh & S & O' & C).
    { intros v. unfold move_highlight.
      rewrite L. destruct (Z.ltb_spec (k - 1) 0); [lia|]. reflexivity. }
    exists w', acts. rewrite Hh, (iter_up k n (highlight w) K H). auto.
Qed.

Lemma arrows_go_round_witness :
  exists w' acts,
    run (Some `"k") browsing (repeat (KeyDown `"ArrowDown") 5) = Some (w', acts)
    /\ highlight w' = 0%Z.
Proof.
  destruct (arrows_go_round (Some `"k") browsing 2 5 eq_refl eq_refl)
    as ((w' & acts & R & H & _) & _).
  - cbn. lia.
  - exists w', acts. split; [exact R | exact H].
Defined.

(** ** Confirming with the mouse *)

Lemma pick_any_render key r r' s h w :
  after (pick key r s) (with_highlight h w) = after (pick key r' s) w
  /\ forall x, calls x (actions (pick key r s) (with_highlight h w))
               = calls x (actions (pick key r' s) w).
Proof.
  unfold pick, fetchWeather, resolve.
  destruct (key_missing key); [split; reflexivity|].
  destruct (JS.encodeURIComponent _); split; reflexivity.
Qed.

Lemma enter_on_highlight key w i s :
  open w = true -> highlight w = Z.of_nat i ->
  nth_error (suggestions w) i = Some s ->
  step key w (KeyDown `"Enter")
  = Some (after (pick key w s) w, actions (pick key w s) w ++ []).
Proof.
  intros O H N. unfold step. cbn [handler]. unfold onKeyDown, highlighted.
  rewrite O, H.
  change (JS.eqb `"Enter" `"ArrowDown") with false.
  change (JS.eqb `"Enter" `"ArrowUp") with false.
  change (JS.eqb `"Enter" `"Enter") with true.
  change (JS.eqb `"Enter" `"Escape") with false.
  cbn [andb orb]. destruct (Z.geb_spec (Z.of_nat i) 0); [|lia].
  rewrite Nat2Z.id, N. reflexivity.
Qed.

Lemma pick_state key r s w :
  city (after (pick key r s) w) = value s
  /\ open (after (pick key r s) w) = false
  /\ highlight (after (pick key r s) w) = (-1)%Z
  /\ suggestions (after (pick key r s) w) = suggestions w.
Proof.
  unfold pick, fetchWeather.
  destruct (key_missing key); [repeat split|].
  destruct (JS.encodeURIComponent _); repeat split.
Qed.

(** X11.  Pressing the mouse on an option that is on screen does what
    hovering it and pressing Enter does: both end in the same state, with
    the value of that option in the box, the dropdown closed and the
    highlight reset, and both make the same requests. *)
Theorem press_is_hover_then_enter (key : ApiKey) (w : World) (i : nat)
    (s : Suggestion) :
  rendered w i = Some s ->
  exists w' a1 a2,
    run key w [OptionMouseDown i] = Some (w', a1)
    /\ run key w [OptionMouseEnter i; KeyDown `"Enter"] = Some (w', a2)
    /\ (forall x, calls x a1 = calls x a2)
    /\ city w' = value s /\ open w' = false /\ highlight w' = (-1)%Z
    /\ suggestions w' = suggestions w.
Proof.
  intros R. destruct (rendered_some w i s R) as (O & N & _).
  set (w1 := with_highlight (Z.of_nat i) w).
  assert (S1 : step key w (OptionMouseEnter i) = Some (w1, [SetHighlight (Z.of_nat i)])).
  { unfold step. cbn [handler]. rewrite R. reflexivity. }
  assert (S2 : step key w1 (KeyDown `"Enter")
               = Some (after (pick key w1 s) w1, actions (pick key w1 s) w1 ++ []))
    by (apply (enter_on_highlight key w1 i s); [exact O|reflexivity|exact N]).
  assert (S3 : step key w (OptionMouseDown i)
               = Some (after (pick key w s) w,
                       PreventDefault :: actions (pick key w s) w)).
  { unfold step. cbn [handler]. rewrite R. reflexivity. }
  destruct (pick_any_render key w1 w s (Z.of_nat i) w) as (E & C).
  fold w1 in E, C.
  exists (after (pick key w s) w),
    ((PreventDefault :: actions (pick key w s) w) ++ []),
    ([SetHighlight (Z.of_nat i)] ++ (actions (pick key w1 s) w1 ++ []) ++ []).
  split; [cbn [run]; rewrite S3; reflexivity|].
  split; [cbn [run]; rewrite S1, S2, E; reflexivity|].
  split.
  - intros x. rewrite !app_nil_r. cbn [app calls]. symmetry. apply C.
  - apply pick_state.
Qed.

Lemma press_is_hover_then_enter_witness :
  exists w' a1 a2,
    run (Some `"k") browsing [OptionMouseDown 0] = Some (w', a1)
    /\ run (Some `"k") browsing [OptionMouseEnter 0; KeyDown `"Enter"]
       = Some (w', a2)
    /\ city w' = `"Paris,FR".
Proof.
  destruct (press_is_hover_then_enter (Some `"k") browsing 0
              (suggestion_of paris_fr) eq_refl)
    as (w' & a1 & a2 & R1 & R2 & _ & C & _).
  exists w', a1, a2. split; [exact R1|]. split; [exact R2 | exact C].
Defined.

(** ** When the dropdown opens *)

Lemma ui_open w w' : ui w' = ui w -> open w' = open w.
Proof. intros E. exact (f_equal (fun u => snd (fst u)) E). Qed.

(** X12.  An answer to a lookup leaves the dropdown open exactly when it
    brought at least one suggestion, with no highlight; and nothing else
    opens the dropdown: a step from a closed dropdown to an open one is
    the [ok] answer of a lookup with a list that is not empty. *)
Theorem dropdown_opens_on_answer_only (key : ApiKey) (w : World) (e : Event)
    (w' : World) (acts : list Action) :
  step key w e = Some (w', acts) ->
  (forall id a, e = GeoReplies id a ->
     open w' = (0 <? length (suggestions w')) /\ highlight w' = (-1)%Z)
  /\ (open w = false -> open w' = true ->
      exists id a items,
        e = GeoReplies id a /\ geo_items a = Some items /\ items <> []
        /\ suggestions w' = items).
Proof.
  intros H. apply step_handler in H as (m & H & -> & ->).
  handler_cases H; (split; [intros id' a' E; try discriminate E|intros C O]).
  - unfold onChange in O. rewrite after_bind in O.
    destruct (lookup_ui key v (after (setCity v) w)) as [U|U];
      unfold ui in U; injection U as _ U _; rewrite U in O;
      cbn [open after setCity snd fst with_city] in O; congruence.
  - destruct (onKeyDown_frame key w k w) as (_ & [(U & _)|(U & _)] & _);
      congruence.
  - cbn [open after setHighlight snd fst with_highlight] in O. congruence.
  - cbn [open after setHighlight snd fst with_highlight] in O. congruence.
  - rewrite after_bind in O.
    destruct (pick_frame key w s (after preventDefault w)) as (U & _).
    unfold ui in U. injection U as _ U _. congruence.
  - unfold onDocClick in O. destruct inside; cbn in O; congruence.
  - destruct (fetchWeather_frame key w None w) as (U & _).
    unfold ui in U. injection U as _ U _. congruence.
  - cbn in O. congruence.
  - rewrite after_bind in O.
    destruct (lookup_fire_frame key (tq t) (after (expire id) w)) as (_ & [U|U] & _);
      unfold ui in U; injection U as _ U _; rewrite U in O;
      cbn [open after expire snd fst with_timers] in O; congruence.
  - rewrite after_bind.
    destruct (lookup_resume_frame a (after (settle id) w)) as (_ & _ & _ & U).
    unfold ui in U. destruct (geo_items a) as [items|];
      injection U as U1 U2 U3; rewrite U1, U2, U3; auto.
  - rewrite after_bind in O |- *.
    destruct (lookup_resume_frame a (after (settle id) w)) as (_ & _ & _ & U).
    unfold ui in U. exists id, a.
    destruct (geo_items a) as [items|]; injection U as U1 U2 U3.
    + exists items. repeat split; auto.
      intros ->. rewrite U2 in O. discriminate.
    + rewrite U2 in O. discriminate.
  - rewrite after_bind in O.
    destruct (fetchWeather_resume_frame a (after (settle id) w)) as (U & _).
    apply ui_open in U.
    change (open (after (settle id) w)) with (open w) in U. congruence.
Qed.

Lemma dropdown_opens_on_answer_only_witness :
  match step (Some `"k") waiting
          (GeoReplies 7 (GResponse true (GBodyArray []))) with
  | Some (w', _) => open w' = false /\ highlight w' = (-1)%Z
  | None => False
  end.
Proof.
  destruct (step (Some `"k") waiting
              (GeoReplies 7 (GResponse true (GBodyArray []))))
    as [[w' acts]|] eqn:H.
  - destruct (dropdown_opens_on_answer_only _ _ _ _ _ H) as (A & _).
    destruct (A 7 _ eq_refl) as (O & Hh).
    split; [rewrite O; vm_compute in H; injection H as <- _; reflexivity|exact Hh].
  - vm_compute in H. discriminate H.
Defined.

(** ** The quiet period *)

Lemma timer_fires_due key w id w' acts :
  step key w (TimerFires id) = Some (w', acts) ->
  exists t, In t (timers w) /\ tid t = id /\ due t <= clock w.
Proof.
  intros H. apply step_handler in H as (m & H & _).
  cbn [handler] in H.
  destruct (find_timer id w) as [t|] eqn:F; [|discriminate].
  destruct (due t <=? clock w) eqn:D; [|discriminate].
  unfold find_timer in F. apply find_some in F as (F1 & F2).
  exists t. split; [exact F1|]. split; [apply Nat.eqb_eq, F2|apply Nat.leb_le, D].
Qed.

Lemma quiet_run key es : forall w w' acts,
  elapsed es < 250 ->
  (forall t, In t (timers w) -> clock w + elapsed es < due t) ->
  run key w es = Some (w', acts) ->
  calls Geocode acts = [].
Proof.
  induction es as [|e es IH]; intros w w' acts Q P H.
  - cbn [run] in H. injection H as <- <-. reflexivity.
  - apply run_cons in H as (w1 & a1 & a2 & S & R & ->).
    rewrite calls_app.
    destruct e;
      try (destruct (step_elsewhere key _ _ _ _ S) as (Sc & ->);
           unfold sched in Sc; injection Sc as S1 _ S3 _;
           cbn [app]; apply (IH w1 w' a2); [exact Q| |exact R];
           intros t T; rewrite S1 in T; rewrite S3; exact (P t T)).
    + (* Change *)
      assert (C1 : calls Geocode a1 = []).
      { destruct (calls Geocode a1) as [|u l] eqn:C; [reflexivity|].
        pose proof (step_handler key _ _ _ _ S) as (m & Hm & -> & ->).
        cbn [handler] in Hm. injection Hm as <-.
        unfold onChange in C. rewrite actions_bind, calls_app in C.
        rewrite (proj2 (lookup_keeps key v _)) in C. discriminate C. }
      assert (Ck : clock w1 = clock w).
      { pose proof (step_handler key _ _ _ _ S) as (m & Hm & -> & _).
        cbn [handler] in Hm. injection Hm as <-.
        unfold onChange. rewrite after_bind.
        apply (lookup_cases key v (after (setCity v) w)). }
      rewrite C1. cbn [app elapsed] in *.
      apply (IH w1 w' a2); [exact Q| |exact R].
      intros t T. rewrite Ck.
      destruct (step_timers key w _ w1 a1 t S T) as [T0|(x & _ & _ & _ & _ & D)].
      * exact (P t T0).
      * rewrite D. lia.
    + (* Elapse *)
      pose proof (step_handler key _ _ _ _ S) as (m & Hm & -> & ->).
      cbn [handler] in Hm. injection Hm as <-.
      cbn [app elapsed] in *.
      apply (IH (after (elapse ms) w) w' a2); [lia| |exact R].
      intros t T. specialize (P t T).
      change (clock (after (elapse ms) w)) with (clock w + ms). lia.
    + (* TimerFires *)
      destruct (timer_fires_due key w id w1 a1 S) as (t & T & _ & D).
      specialize (P t T). lia.
Qed.

(** X13.  After a keystroke in a reachable state, nothing is looked up
    for as long as less than 250 ms have passed, whatever happens in the
    meantime (more typing included): a lookup is only made after a quiet
    period. *)
Theorem no_lookup_before_quiet_period (key : ApiKey) (w : World) (q : JS.str)
    (es : list Event) (w' : World) (acts : list Action) :
  reachable key w ->
  elapsed es < 250 ->
  run key w (Change q :: es) = Some (w', acts) ->
  calls Geocode acts = [].
Proof.
  intros R Q H. destruct (reachable_inv key w R) as (_ & T & I).
  apply run_cons in H as (w1 & a1 & a2 & S & Rn & ->).
  destruct (change_arms key w q w1 a1 T I S) as (Ck & C & Tm).
  rewrite calls_app, C. cbn [app].
  apply (quiet_run key es w1 w' a2 Q); [|exact Rn].
  intros t In_t. rewrite Ck.
  destruct Tm as [Tm|Tm]; rewrite Tm in In_t; [destruct In_t|].
  destruct In_t as [<-|[]]. cbn [due]. lia.
Qed.

Lemma no_lookup_before_quiet_period_witness :
  elapsed [Elapse 100; Change `"Pari"; Elapse 149] < 250
  /\ match run (Some `"k") typed
             (Change `"Par" :: [Elapse 100; Change `"Pari"; Elapse 149]) with
     | Some (_, acts) => calls Geocode acts = []
     | None => False
     end.
Proof.
  assert (Q : elapsed [Elapse 100; Change `"Pari"; Elapse 149] < 250)
    by (cbn; lia).
  assert (R : reachable (Some `"k") typed) by (exists [Change `"Pa"]; reflexivity).
  split; [exact Q|].
  destruct (run (Some `"k") typed
              (Change `"Par" :: [Elapse 100; Change `"Pari"; Elapse 149]))
    as [[w' acts]|] eqn:H.
  - exact (no_lookup_before_quiet_period _ _ _ _ _ _ R Q H).
  - vm_compute in H. discriminate H.
Defined.

(** ** From typing to suggestions *)

Lemma long_text q :
  2 <= length (JS.trim q) ->
  negb (JS.truthy q) || (length (JS.trim q) <? 2) = false.
Proof.
  intros L. apply orb_false_iff. split.
  - destruct q; [cbn in L; lia|reflexivity].
  - apply Nat.ltb_ge, L.
Qed.

(** X14.  In a reachable state, with a key, a text of trimmed length at
    least 2 that can be escaped, typed and left alone for 250 ms, is
    looked up: its timer is then due, firing it requests the geocoding URL
    of the text, and the [ok] answer with a list puts one suggestion per
    entry on screen, no highlight, the dropdown open exactly if the list
    is not empty.  The box holds the text and no timer is left. *)
Theorem typed_text_is_looked_up (key : ApiKey) (w : World) (q x : JS.str)
    (l : list RawEntry) :
  reachable key w ->
  key_missing key = false ->
  2 <= length (JS.trim q) ->
  JS.encodeURIComponent q = Some x ->
  exists w' acts,
    run key w
      [Change q; Elapse 250; TimerFires (next_timer w);
       GeoReplies (next_request w) (GResponse true (GBodyArray l))]
    = Some (w', acts)
    /\ calls Geocode acts = [geocode_url key x]
    /\ calls Weather acts = []
    /\ suggestions w' = map suggestion_of l
    /\ open w' = (0 <? length l)
    /\ highlight w' = (-1)%Z
    /\ city w' = q
    /\ timers w' = [].
Proof.
  intros R K L E. destruct (reachable_inv key w R) as (_ & T & _).
  (* typing *)
  set (w0 := after (setCity q) w).
  assert (T0 : timer_inv w0) by exact T.
  destruct (lookup_cases key q w0)
    as (_ & F1 & C1 & [(K' & _)|[(_ & S' & _)|(_ & _ & _ & Tm & _ & _)]]);
    [congruence|rewrite (long_text q L) in S'; discriminate|].
  rewrite (after_cancel_inv w0 T0) in Tm. cbn [app] in Tm.
  destruct (lookup_quiet key q w0) as (N1 & _).
  destruct (lookup_keeps key q w0) as (Ci & Ca).
  set (w1 := after (lookup key q) w0) in *.
  assert (S1 : step key w (Change q)
               = Some (w1, SetCity q :: actions (lookup key q) w0)) by reflexivity.
  (* the timer *)
  set (w2 := after (elapse 250) w1).
  assert (S2 : step key w1 (Elapse 250) = Some (w2, [])) by reflexivity.
  assert (S3 : step key w2 (TimerFires (next_timer w))
               = Some (after (expire (next_timer w) ;; lookup_fire key q) w2,
                       actions (expire (next_timer w) ;; lookup_fire key q) w2)).
  { unfold step. cbn [handler]. unfold find_timer.
    change (timers w2) with (timers w1). rewrite Tm. cbn [find tid].
    change (next_timer w0) with (next_timer w). rewrite Nat.eqb_refl.
    cbn [due tq]. change (clock w2) with (clock w1 + 250). rewrite C1.
    rewrite Nat.leb_refl. reflexivity. }
  set (w3 := after (expire (next_timer w) ;; lookup_fire key q) w2) in *.
  assert (A3 : actions (expire (next_timer w) ;; lookup_fire key q) w2
               = [Fetch Geocode (geocode_url key x)]).
  { unfold lookup_fire. rewrite E. reflexivity. }
  assert (W3 : w3 = with_next_request (S (next_request w))
                      (with_inflight
                         (inflight w1
                          ++ [{| rid := next_request w; site := Geocode;
                                 url := geocode_url key x |}])
                         (with_timers [] w2))).
  { unfold w3. rewrite after_bind. unfold lookup_fire. rewrite E.
    unfold net in N1. injection N1 as N11 N12.
    unfold after, expire, fetch. cbn [fst snd].
    cbn [timers inflight next_request with_timers].
    change (timers w2) with (timers w1). rewrite Tm.
    change (next_request w2) with (next_request w1).
    change (inflight w2) with (inflight w1).
    rewrite N12. cbn [filter tid]. change (next_timer w0) with (next_timer w).
    rewrite Nat.eqb_refl. reflexivity. }
  (* the answer *)
  set (a := GResponse true (GBodyArray l)).
  assert (G : awaiting Geocode (next_request w) w3 = true).
  { rewrite W3. apply (awaiting_fetched Geocode (next_request w)
                         (geocode_url key x) (with_timers [] w2)). }
  assert (S4 : step key w3 (GeoReplies (next_request w) a)
               = Some (after (settle (next_request w) ;; lookup_resume a) w3,
                       actions (settle (next_request w) ;; lookup_resume a) w3)).
  { unfold step. cbn [handler]. rewrite G. reflexivity. }
  eexists. eexists. split.
  { cbn [run]. rewrite S1, S2, S3, S4. reflexivity. }
  rewrite A3. rewrite !calls_app. cbn [calls site_eqb].
  rewrite (Ca Geocode), (Ca Weather). cbn [app calls site_eqb].
  split; [reflexivity|]. split; [reflexivity|].
  rewrite after_bind.
  split; [reflexivity|]. split; [unfold lookup_resume; cbn; rewrite length_map; reflexivity|].
  split; [reflexivity|].
  split.
  - change (city (after (lookup_resume a) (after (settle (next_request w)) w3)))
      with (city w3). rewrite W3. exact Ci.
  - change (timers (after (lookup_resume a) (after (settle (next_request w)) w3)))
      with (timers w3). rewrite W3. reflexivity.
Qed.

Lemma typed_text_is_looked_up_witness :
  exists w' acts,
    run (Some `"k") typed
      [Change `"Par"; Elapse 250; TimerFires 2;
       GeoReplies 1 (GResponse true (GBodyArray [paris_fr; paris_tx]))]
    = Some (w', acts)
    /\ calls Geocode acts = [geocode_url (Some `"k") `"Par"]
    /\ suggestions w' = [suggestion_of paris_fr; suggestion_of paris_tx]
    /\ open w' = true.
Proof.
  assert (R : reachable (Some `"k") typed) by (exists [Change `"Pa"]; reflexivity).
  assert (L : 2 <= length (JS.trim `"Par")) by (cbn; lia).
  destruct (typed_text_is_looked_up (Some `"k") typed `"Par" `"Par"
              [paris_fr; paris_tx] R eq_refl L eq_refl)
    as (w' & acts & H & G & _ & S & O & _).
  exists w', acts. split; [exact H|]. split; [exact G|]. split; [exact S | exact O].
Defined.

(** ** The two halves keep apart *)

(** X15.  Only Enter, a press on an option, the Search button and the
    answers of the weather service touch the weather search: every other
    event (typing, other keys, hovering, a press elsewhere, time, the
    timer, the answers to lookups) leaves [data], [error] and [loading] as
    they are and requests no weather. *)
Theorem suggestions_leave_weather_alone (key : ApiKey) (w : World) (e : Event)
    (w' : World) (acts : list Action) :
  searches e = false ->
  step key w e = Some (w', acts) ->
  weather_cells w' = weather_cells w /\ calls Weather acts = [].
Proof.
  intros N H. apply step_handler in H as (m & H & -> & ->).
  remember (searches e) as b eqn:Eb.
  handler_cases H; cbn [searches] in Eb; subst b; try discriminate N.
  - unfold onChange. rewrite after_bind, actions_bind, calls_app.
    rewrite (proj2 (lookup_keeps key v _)).
    split; [apply (lookup_quiet key v (after (setCity v) w))|reflexivity].
  - cbn [searches] in N. unfold onKeyDown. rewrite N.
    destruct (open w && _); [split; reflexivity|].
    destruct (JS.eqb k `"Escape"); split; reflexivity.
  - split; reflexivity.
  - split; reflexivity.
  - unfold onDocClick. destruct inside; split; reflexivity.
  - split; reflexivity.
  - unfold lookup_fire. destruct (JS.encodeURIComponent (tq t));
      split; reflexivity.
  - unfold lookup_resume. destruct (geo_items a); split; reflexivity.
Qed.

Lemma suggestions_leave_weather_alone_witness :
  match step (Some `"k") waiting
          (GeoReplies 7 (GResponse true (GBodyArray [paris_fr]))) with
  | Some (w', _) => error w' = `"Error 404: Not Found"
  | None => False
  end.
Proof.
  destruct (step (Some `"k") waiting
              (GeoReplies 7 (GResponse true (GBodyArray [paris_fr]))))
    as [[w' acts]|] eqn:H.
  - destruct (suggestions_leave_weather_alone (Some `"k") waiting
                (GeoReplies 7 (GResponse true (GBodyArray [paris_fr])))
                w' acts eq_refl H) as (C & _).
    exact (f_equal (fun c => snd (fst c)) C).
  - vm_compute in H. discriminate H.
Defined.

(** X16.  Only typing cancels a pending lookup, and only its own timer
    ends it: every event that is neither a keystroke in the box nor the
    firing of a timer leaves the pending timers and [debounceRef] as they
    are.  Picking a suggestion, Enter, Escape and a press outside do not
    call the lookup off. *)
Theorem pending_lookup_survives (key : ApiKey) (w : World) (e : Event)
    (w' : World) (acts : list Action) :
  (forall v, e <> Change v) ->
  (forall id, e <> TimerFires id) ->
  step key w e = Some (w', acts) ->
  timers w' = timers w /\ debounceRef w' = debounceRef w
  /\ calls Geocode acts = [].
Proof.
  intros N1 N2 H.
  destruct e;
    try (destruct (step_elsewhere key _ _ _ _ H) as (S & C);
         unfold sched in S; injection S as S1 S2 _ _; auto).
  - destruct (N1 v eq_refl).
  - apply step_handler in H as (m & H & -> & ->).
    cbn [handler] in H. injection H as <-. repeat split.
  - destruct (N2 id eq_refl).
Qed.

Lemma pending_lookup_survives_witness :
  match step (Some `"k") typed (KeyDown `"Enter") with
  | Some (w', _) => timers w' = [{| tid := 1; due := 250; tq := `"Pa" |}]
  | None => False
  end.
Proof.
  destruct (step (Some `"k") typed (KeyDown `"Enter")) as [[w' acts]|] eqn:H.
  - destruct (pending_lookup_survives (Some `"k") typed (KeyDown `"Enter")
                w' acts) as (T & _);
      [discriminate|discriminate|exact H|exact T].
  - vm_compute in H. discriminate H.
Defined.

(** ** A dismissed dropdown *)

Lemma enter_when_closed key w :
  open w = false ->
  step key w (KeyDown `"Enter")
  = Some (after (fetchWeather key w (Some (city w))) w,
          actions (fetchWeather key w (Some (city w))) w ++ []).
Proof.
  intros O. unfold step. cbn [handler]. unfold onKeyDown, highlighted.
  rewrite O. reflexivity.
Qed.

(** X17.  Escape and a press outside the box close the dropdown and keep
    the list and the text in the box; a press outside keeps the highlight
    too.  Enter after either searches for the text in the box, never for a
    suggestion, even one that is still highlighted. *)
Theorem dismissed_dropdown_is_not_confirmed (key : ApiKey) (w : World)
    (e : Event) :
  e = KeyDown `"Escape" \/ e = DocMouseDown false ->
  exists w1 a1,
    step key w e = Some (w1, a1)
    /\ open w1 = false /\ suggestions w1 = suggestions w /\ city w1 = city w
    /\ weather_cells w1 = weather_cells w
    /\ (forall s, calls s a1 = [])
    /\ (e = DocMouseDown false -> highlight w1 = highlight w)
    /\ (e = KeyDown `"Escape" -> highlight w1 = (-1)%Z)
    /\ step key w1 (KeyDown `"Enter")
       = Some (after (fetchWeather key w1 (Some (city w))) w1,
               actions (fetchWeather key w1 (Some (city w))) w1 ++ []).
Proof.
  intros [->| ->].
  - exists (with_highlight (-1) (with_open false w)),
      [SetOpen false; SetHighlight (-1)].
    split.
    { unfold step. cbn [handler]. unfold onKeyDown.
      change (JS.eqb `"Escape" `"ArrowDown") with false.
      change (JS.eqb `"Escape" `"ArrowUp") with false.
      change (JS.eqb `"Escape" `"Enter") with false.
      change (JS.eqb `"Escape" `"Escape") with true.
      cbn [orb]. rewrite andb_false_r. reflexivity. }
    split; [reflexivity|]. split; [reflexivity|]. split; [reflexivity|].
    split; [reflexivity|]. split; [reflexivity|].
    split; [discriminate|]. split; [reflexivity|].
    apply (enter_when_closed key (with_highlight (-1) (with_open false w))).
    reflexivity.
  - exists (with_open false w), [SetOpen false].
    split; [reflexivity|].
    split; [reflexivity|]. split; [reflexivity|]. split; [reflexivity|].
    split; [reflexivity|]. split; [reflexivity|].
    split; [reflexivity|]. split; [discriminate|].
    apply (enter_when_closed key (with_open false w)). reflexivity.
Qed.

Lemma dismissed_dropdown_is_not_confirmed_witness :
  exists w1 a1,
    step (Some `"k") browsing (DocMouseDown false) = Some (w1, a1)
    /\ highlight w1 = 1%Z
    /\ step (Some `"k") w1 (KeyDown `"Enter")
       = Some (after (fetchWeather (Some `"k") w1 (Some `"Par")) w1,
               actions (fetchWeather (Some `"k") w1 (Some `"Par")) w1 ++ []).
Proof.
  destruct (dismissed_dropdown_is_not_confirmed (Some `"k") browsing
              (DocMouseDown false) (or_intror eq_refl))
    as (w1 & a1 & S & _ & _ & _ & _ & _ & H & _ & E).
  exists w1, a1. split; [exact S|]. split; [exact (H eq_refl) | exact E].
Defined.

(** ** Answers that come late *)

Lemma awaiting_filter s id id' w :
  id <> id' ->
  awaiting s id w = true ->
  awaiting s id (after (settle id') w) = true.
Proof.
  intros N A. unfold awaiting in *. run_m.
  apply existsb_exists in A as (q & Hq & G).
  apply existsb_exists. exists q. split; [|exact G].
  apply filter_In. split; [exact Hq|].
  apply andb_true_iff in G as (G & _). apply Nat.eqb_eq in G.
  apply negb_true_iff, Nat.eqb_neq. congruence.
Qed.

(** X18.  The answer to a lookup is put on screen whatever has been typed
    since the lookup left: typing, even a text too short to be looked up,
    does not call a request off, and its [ok] answer then fills the list
    and opens the dropdown over it if it is not empty, under the new
    text. *)
Theorem late_answer_is_shown (key : ApiKey) (w : World) (id : nat)
    (v : JS.str) (l : list RawEntry) :
  awaiting Geocode id w = true ->
  exists w' acts,
    run key w [Change v; GeoReplies id (GResponse true (GBodyArray l))]
    = Some (w', acts)
    /\ suggestions w' = map suggestion_of l
    /\ open w' = (0 <? length l)
    /\ highlight w' = (-1)%Z
    /\ city w' = v
    /\ forall s, calls s acts = [].
Proof.
  intros A.
  set (w1 := after (onChange key v) w).
  assert (A1 : awaiting Geocode id w1 = true).
  { unfold awaiting, w1, onChange. rewrite after_bind.
    destruct (lookup_quiet key v (after (setCity v) w)) as (N & _).
    unfold net in N. injection N as N _. rewrite N. exact A. }
  set (a := GResponse true (GBodyArray l)).
  exists (after (settle id ;; lookup_resume a) w1),
    (actions (onChange key v) w
     ++ actions (settle id ;; lookup_resume a) w1 ++ []).
  split.
  { cbn [run]. unfold step at 1. cbn [handler]. fold w1.
    unfold step. cbn [handler]. rewrite A1. reflexivity. }
  rewrite after_bind.
  split; [reflexivity|].
  split; [unfold lookup_resume; cbn; rewrite length_map; reflexivity|].
  split; [reflexivity|]. split.
  - change (city (after (lookup_resume a) (after (settle id) w1))) with (city w1).
    unfold w1, onChange. rewrite after_bind.
    rewrite (proj1 (lookup_keeps key v _)). reflexivity.
  - intros s. rewrite !calls_app. unfold onChange.
    rewrite actions_bind, calls_app, (proj2 (lookup_keeps key v _)).
    reflexivity.
Qed.

Lemma late_answer_is_shown_witness :
  exists w' acts,
    run (Some `"k") waiting
      [Change `"P"; GeoReplies 7 (GResponse true (GBodyArray [paris_fr]))]
    = Some (w', acts)
    /\ open w' = true /\ city w' = `"P".
Proof.
  destruct (late_answer_is_shown (Some `"k") waiting 7 `"P" [paris_fr] eq_refl)
    as (w' & acts & R & _ & O & _ & C & _).
  exists w', acts. split; [exact R|]. split; [exact O | exact C].
Defined.

(** X19.  Of two weather searches under way, the card shows the payload
    of the answer that comes last, whichever search it belongs to: when
    both answers are [ok], [data] ends as the payload of the second
    answer, and the loading state is over. *)
Theorem last_answer_wins (key : ApiKey) (w : World) (id1 id2 : nat)
    (j1 j2 : option Json) (st1 st2 : N) (t1 t2 : JS.str) :
  id1 <> id2 ->
  awaiting Weather id1 w = true ->
  awaiting Weather id2 w = true ->
  (exists w' acts,
     run key w
       [WeatherReplies id1 (WResponse true st1 t1 (WBodyJson j1));
        WeatherReplies id2 (WResponse true st2 t2 (WBodyJson j2))]
     = Some (w', acts)
     /\ data w' = j2 /\ loading w' = false /\ error w' = error w)
  /\ (exists w' acts,
        run key w
          [WeatherReplies id2 (WResponse true st2 t2 (WBodyJson j2));
           WeatherReplies id1 (WResponse true st1 t1 (WBodyJson j1))]
        = Some (w', acts)
        /\ data w' = j1 /\ loading w' = false /\ error w' = error w).
Proof.
  intros N A1 A2.
  assert (B2 : awaiting Weather id2
                 (after (settle id1 ;;
                         fetchWeather_resume (WResponse true st1 t1 (WBodyJson j1))) w)
               = true).
  { apply (awaiting_filter Weather id2 id1 w); [congruence|exact A2]. }
  assert (B1 : awaiting Weather id1
                 (after (settle id2 ;;
                         fetchWeather_resume (WResponse true st2 t2 (WBodyJson j2))) w)
               = true).
  { apply (awaiting_filter Weather id1 id2 w); [exact N|exact A1]. }
  split.
  - eexists. eexists. split.
    { cbn [run]. unfold step at 1. cbn [handler]. rewrite A1.
      unfold step. cbn [handler]. rewrite B2. reflexivity. }
    split; [reflexivity|]. split; reflexivity.
  - eexists. eexists. split.
    { cbn [run]. unfold step at 1. cbn [handler]. rewrite A2.
      unfold step. cbn [handler]. rewrite B1. reflexivity. }
    split; [reflexivity|]. split; reflexivity.
Qed.

Lemma last_answer_wins_witness :
  exists w' acts,
    run (Some `"k") two_searches
      [WeatherReplies 2 (WResponse true 200 `"OK" (WBodyJson (Some (JsonText `"B"))));
       WeatherReplies 1 (WResponse true 200 `"OK" (WBodyJson (Some (JsonText `"A"))))]
    = Some (w', acts)
    /\ data w' = Some (JsonText `"A").
Proof.
  destruct (last_answer_wins (Some `"k") two_searches 2 1
              (Some (JsonText `"B")) (Some (JsonText `"A")) 200 200 `"OK" `"OK")
    as ((w' & acts & R & D & _) & _); [discriminate|reflexivity|reflexivity|].
  exists w', acts. split; [exact R | exact D].
Defined.
